(** * Head reconciliation of next-server (packages/next-server/lib/head.tsx)

    A shallow embedding of the head-tag reconciler ([defaultHead],
    [onlyReactElement], [unique], [reduceHeadInstances]) and of the
    registry protocol of the [Head] component ([emitUpdate],
    [Head.rewind]), followed by the properties proved about them. *)

From Stdlib Require Import ZArith String Ascii List DecimalString.
From Stdlib Require DecimalNat DecimalPos DecimalFacts.
From stdpp Require Import base option list gmap sets strings countable.

Local Open Scope string_scope.
Local Open Scope list_scope.

(** ** Data model: React elements as the code sees them *)

(** A number that is a key: an integer in the safe range
    ([|n| < 2^53]), the numbers that are exactly representable and that
    [''+n] prints as their decimal numeral.  Other numbers are outside
    the model. *)
Record SafeInteger : Type := mkSafeInteger {
  value : Z;
  value_safe : Is_true (Z.abs value <? 2 ^ 53)%Z
}.

(** [React.Key = string | number]. *)
Inductive Key : Type :=
| KStr (s : string)
| KNum (n : SafeInteger).

(** [h.type]: the [React.Fragment] symbol or a host tag name such as
    ['meta']. *)
Inductive ElementType : Type :=
| Fragment
| Tag (name : string).

(** The value of one property of [h.props]: a string, or [undefined]
    stored under an own property. *)
Inductive PropValue : Type :=
| VUndefined
| VString (s : string).

(** [React.ReactNode] and [React.ReactElement].  [props] holds the own
    properties of [h.props] except [children], which is kept in a field
    of its own. *)
#[warnings="-register-all"]
Inductive ReactNode : Type :=
| NEmpty                      (* null, undefined, true, false *)
| NString (s : string)
| NNumber (n : Z)
| NElement (e : ReactElement)
| NArray (l : list ReactNode)
with ReactElement : Type :=
| mkElement (type : ElementType) (key : option Key)
            (props : gmap string PropValue) (children : ReactNode).

Definition type (e : ReactElement) : ElementType :=
  let '(mkElement t _ _ _) := e in t.
Definition key (e : ReactElement) : option Key :=
  let '(mkElement _ k _ _) := e in k.
Definition props (e : ReactElement) : gmap string PropValue :=
  let '(mkElement _ _ p _) := e in p.
Definition children (e : ReactElement) : ReactNode :=
  let '(mkElement _ _ _ c) := e in c.

(** [React.ReactChild = ReactElement | string | number]: what
    [React.Children.toArray] returns. *)
Inductive ReactChild : Type :=
| CText (s : string)
| CNumber (n : Z)
| CElement (e : ReactElement).

(** [React.RefObject<JSX.Element>]: only [current] is read by the
    reconciler. *)
Record RefObject : Type := mkRef { current : ReactNode }.

(** [WithInAmpMode]; an absent [inAmpMode] reads as [false] in
    [!inAmpMode]. *)
Record WithInAmpMode : Type := mkOptions { inAmpMode : bool }.

Global Instance SafeInteger_eq_dec : EqDecision SafeInteger.
Proof.
  intros [v1 p1] [v2 p2]. destruct (decide (v1 = v2)) as [->|Hne].
  - left. f_equal. apply proof_irrel.
  - right. congruence.
Defined.
Global Instance Key_eq_dec : EqDecision Key.
Proof. solve_decision. Defined.
Global Instance ElementType_eq_dec : EqDecision ElementType.
Proof. solve_decision. Defined.
Global Instance PropValue_eq_dec : EqDecision PropValue.
Proof. solve_decision. Defined.
Definition PropValue_to_option (v : PropValue) : option string :=
  match v with VUndefined => None | VString s => Some s end.
Definition PropValue_of_option (o : option string) : PropValue :=
  match o with None => VUndefined | Some s => VString s end.
Global Instance PropValue_countable : Countable PropValue :=
  inj_countable' PropValue_to_option PropValue_of_option
    (fun v => match v with VUndefined => eq_refl | VString _ => eq_refl end).

(** ** JavaScript coercions used by the code *)

(** Truthiness of a string ([''] is falsy). *)
Definition truthy_string (s : string) : bool :=
  match s with EmptyString => false | _ => true end.

(** Truthiness of [h.key] ([null], [''] and [0] are falsy). *)
Definition truthy_key (k : option Key) : bool :=
  match k with
  | None => false
  | Some (KStr s) => truthy_string s
  | Some (KNum n) => negb (Z.eqb (value n) 0)
  end.

(** Truthiness of a property read [c.props.className] (absent,
    [undefined] and [''] are falsy). *)
Definition truthy_prop (v : option PropValue) : bool :=
  match v with
  | Some (VString s) => truthy_string s
  | _ => false
  end.

(** [String(i)] for an array index and [''+n] for a safe integer. *)
Definition string_of_index (i : nat) : string :=
  NilZero.string_of_uint (Nat.to_uint i).
Definition string_of_number (n : SafeInteger) : string :=
  NilZero.string_of_int (Z.to_int (value n)).

(** ** [defaultHead] (lines 14-27) *)

Definition charSet_meta (className : string) : ReactElement :=
  mkElement (Tag "meta") (Some (KStr "charSet"))
    (<["charSet" := VString "utf-8"]>
       (<["className" := VString className]> ∅))
    NEmpty.

Definition viewport_meta (className : string) : ReactElement :=
  mkElement (Tag "meta") (Some (KStr "viewport"))
    (<["name" := VString "viewport"]>
       (<["content" :=
            VString "width=device-width,minimum-scale=1,initial-scale=1"]>
          (<["className" := VString className]> ∅)))
    NEmpty.

Definition defaultHead (className : string) (inAmpMode : bool)
  : list ReactElement :=
  let head := [charSet_meta className] in
  if negb inAmpMode then head ++ [viewport_meta className] else head.

(** ** [React.Children.toArray]

    The reconciler calls this function of the React library on the
    children of every [Head] instance and of every fragment.  The
    definitions of the reconciler take it as the section variable
    [toArray]; [Children_toArray] below is React's algorithm
    ([traverseAllChildren]), used where a concrete run is evaluated:
    nested arrays are flattened, [null]/[undefined]/booleans are dropped,
    strings and numbers are kept, and every element is re-keyed with
    ['.$' + key] when it has a key and ['.' + index.toString(36)]
    otherwise (joined by [':'] inside nested arrays). *)

Definition string_of_key (k : Key) : string :=
  match k with KStr s => s | KNum n => string_of_number n end.

Fixpoint escape_chars (s : string) : string :=
  match s with
  | EmptyString => EmptyString
  | String c rest =>
      if Ascii.eqb c "="%char then "=0" ++ escape_chars rest
      else if Ascii.eqb c ":"%char then "=2" ++ escape_chars rest
      else String c (escape_chars rest)
  end.

Definition escape (k : Key) : string := "$" ++ escape_chars (string_of_key k).

Definition base36_digit (d : nat) : ascii :=
  nth d (list_ascii_of_string "0123456789abcdefghijklmnopqrstuvwxyz") "0"%char.

Fixpoint toString36_aux (fuel n : nat) (acc : string) : string :=
  match fuel with
  | O => acc
  | S fuel' =>
      let acc' := String (base36_digit (n mod 36)) acc in
      if Nat.eqb (n / 36) 0 then acc' else toString36_aux fuel' (n / 36) acc'
  end.

Definition toString36 (n : nat) : string := toString36_aux (S n) n "".

Definition getComponentKey (component : ReactNode) (index : nat) : string :=
  match component with
  | NElement e =>
      match key e with
      | Some k => escape k
      | None => toString36 index
      end
  | _ => toString36 index
  end.

Definition cloneAndReplaceKey (e : ReactElement) (newKey : string)
  : ReactElement :=
  mkElement (type e) (Some (KStr newKey)) (props e) (children e).

Fixpoint traverseAllChildren (children : ReactNode) (nameSoFar : string)
  : list ReactChild :=
  let childKey :=
    if String.eqb nameSoFar "" then ("." ++ getComponentKey children 0)%string
    else nameSoFar in
  match children with
  | NEmpty => []
  | NString s => [CText s]
  | NNumber n => [CNumber n]
  | NElement e => [CElement (cloneAndReplaceKey e childKey)]
  | NArray l =>
      let nextNamePrefix :=
        if String.eqb nameSoFar "" then "." else (nameSoFar ++ ":")%string in
      (fix each (l : list ReactNode) (i : nat) : list ReactChild :=
         match l with
         | [] => []
         | child :: rest =>
             traverseAllChildren child
               (nextNamePrefix ++ getComponentKey child i)%string
             ++ each rest (S i)
         end) l 0%nat
  end.

Definition Children_toArray (children : ReactNode) : list ReactChild :=
  traverseAllChildren children "".

(** ** The dedup filter [unique] (lines 60-105) *)

Definition METATYPES : list string :=
  ["name"; "httpEquiv"; "charSet"; "itemProp"].

(** The four collections captured by the closure that [unique()]
    returns. *)
Record UniqueState : Type := mkUnique {
  keys : gset string;
  tags : gset string;
  metaTypes : gset string;
  metaCategories : gmap string (gset PropValue)
}.

(** The state of a fresh call [unique()]. *)
Definition unique : UniqueState := mkUnique ∅ ∅ ∅ ∅.

(** [h.key && typeof h.key !== 'number' && h.key.indexOf('.$') === 0],
    returning the key when the test succeeds. *)
Definition auto_key (h : ReactElement) : option string :=
  match key h with
  | Some (KStr s) =>
      if truthy_string s && String.prefix ".$" s then Some s else None
  | _ => None
  end.

(** The [for] loop of the ['meta'] case over [METATYPES\[i..\]], as it
    runs when [h.props.hasOwnProperty] is the method inherited from
    [Object.prototype]; [false] is the early [return false], [true] is
    reaching the [break].  The loop with the TypeError that line 88
    raises otherwise is [meta_loop_checked] below; the two agree
    wherever the code returns. *)
Fixpoint meta_loop (h : ReactElement) (metatypes : list string)
  (st : UniqueState) : bool * UniqueState :=
  match metatypes with
  | [] => (true, st)
  | metatype :: rest =>
      match props h !! metatype with
      | None => meta_loop h rest st
      | Some category =>
          if String.eqb metatype "charSet" then
            if decide (metatype ∈ metaTypes st) then (false, st)
            else meta_loop h rest
                   (mkUnique (keys st) (tags st)
                      (metaTypes st ∪ {[metatype]}) (metaCategories st))
          else
            let categories := default ∅ (metaCategories st !! metatype) in
            if decide (category ∈ categories) then (false, st)
            else meta_loop h rest
                   (mkUnique (keys st) (tags st) (metaTypes st)
                      (<[metatype := categories ∪ {[category]}]>
                         (metaCategories st)))
      end
  end.

(** The arrow function returned by [unique()]: the answer and the
    collections as it leaves them. *)
Definition unique_call (st : UniqueState) (h : ReactElement)
  : bool * UniqueState :=
  match auto_key h with
  | Some k =>
      if decide (k ∈ keys st) then (false, st)
      else (true, mkUnique (keys st ∪ {[k]}) (tags st) (metaTypes st)
                    (metaCategories st))
  | None =>
      match type h with
      | Tag t =>
          if String.eqb t "title" || String.eqb t "base" then
            if decide (t ∈ tags st) then (false, st)
            else (true, mkUnique (keys st) (tags st ∪ {[t]}) (metaTypes st)
                          (metaCategories st))
          else if String.eqb t "meta" then meta_loop h METATYPES st
          else (true, st)
      | Fragment => (true, st)
      end
  end.

(** [Array.prototype.filter] with the stateful callback. *)
Fixpoint filter_unique (st : UniqueState) (l : list ReactElement)
  : list ReactElement :=
  match l with
  | [] => []
  | h :: rest =>
      let '(keep, st') := unique_call st h in
      if keep then h :: filter_unique st' rest else filter_unique st' rest
  end.

(** ** The reconciler (lines 29-58 and 111-138) *)

Section Reconciler.

(** [React.Children.toArray]. *)
Variable toArray : ReactNode -> list ReactChild.

(** The inner reducer of [onlyReactElement], over the children of a
    fragment. *)
Definition fragmentReducer (fragmentList : list ReactElement)
  (fragmentChild : ReactChild) : list ReactElement :=
  match fragmentChild with
  | CText _ | CNumber _ => fragmentList
  | CElement e => fragmentList ++ [e]
  end.

Definition onlyReactElement (acc : list ReactElement) (child : ReactChild)
  : list ReactElement :=
  match child with
  | CText _ | CNumber _ => acc
  | CElement e =>
      match type e with
      | Fragment =>
          acc ++ fold_left fragmentReducer (toArray (children e)) []
      | Tag _ => acc ++ [e]
      end
  end.

(** The first [reduce] of [reduceHeadInstances]: the children of all
    instances, in the order of the array. *)
Definition collectChildren (headInstanceRefs : list RefObject)
  : list ReactChild :=
  fold_left
    (fun acc headInstanceRef => acc ++ toArray (current headInstanceRef))
    headInstanceRefs [].

(** Both [reduce] steps. *)
Definition flattenInstances (headInstanceRefs : list RefObject)
  : list ReactElement :=
  fold_left onlyReactElement (collectChildren headInstanceRefs) [].

(** [React.cloneElement(c, { key, className })]: [key] becomes the
    string [''+key], [className] becomes an own property (also when it
    is [undefined]); everything else is kept. *)
Definition cloneElement (c : ReactElement) (key : string)
  (className : PropValue) : ReactElement :=
  mkElement (type c) (Some (KStr key))
    (<["className" := className]> (props c)) (children c).

(** The callback of the final [map]. *)
Definition withKeyAndClassName (i : nat) (c : ReactElement) : ReactElement :=
  let className :=
    VString
      ((match props c !! "className" with
        | Some (VString s) => if truthy_string s then s ++ " " else ""
        | _ => ""
        end) ++ "next-head")%string in
  let className :=
    if bool_decide (type c = Tag "title")
       && negb (truthy_prop (props c !! "className"))
    then VUndefined else className in
  let key :=
    match key c with
    | Some k => if truthy_key (Some k) then string_of_key k
                else string_of_index i
    | None => string_of_index i
    end in
  cloneElement c key className.

(** The array handed to [filter]: the flattened children reversed,
    then the defaults. *)
Definition precedenceList (headInstanceRefs : list RefObject)
  (options : WithInAmpMode) : list ReactElement :=
  reverse (flattenInstances headInstanceRefs)
  ++ defaultHead "" (inAmpMode options).

(** The chain up to and including the second [reverse]. *)
Definition dedupedInstances (headInstanceRefs : list RefObject)
  (options : WithInAmpMode) : list ReactElement :=
  reverse (filter_unique unique (precedenceList headInstanceRefs options)).

Definition reduceHeadInstances (headInstanceRefs : list RefObject)
  (options : WithInAmpMode) : list ReactElement :=
  imap withKeyAndClassName (dedupedInstances headInstanceRefs options).

(** ** The registry and the [Head] component (lines 10-12, 144-196) *)

(** The mutable state of the module: the [current] field of every ref
    object (by identity), the insertion-ordered [Set] of registered
    refs, [headState], and the calls made to [updateHead] so far. *)
Record HeadModule : Type := mkHeadModule {
  refCurrent : gmap nat ReactNode;
  headInstanceRefs : list nat;
  headState : option (list ReactElement);
  updates : list (list ReactElement)
}.

(** [Set.prototype.add], [delete] and [clear] on the insertion-ordered
    set. *)
Definition Set_add (x : nat) (s : list nat) : list nat :=
  if decide (x ∈ s) then s else s ++ [x].
Definition Set_delete (x : nat) (s : list nat) : list nat :=
  filter (fun y => y ≠ x) s.
Definition Set_clear (s : list nat) : list nat := [].

(** [headInstanceRefs.add(instanceRef)]. *)
Definition register (instanceRef : nat) (m : HeadModule) : HeadModule :=
  mkHeadModule (refCurrent m) (Set_add instanceRef (headInstanceRefs m))
    (headState m) (updates m).

(** [headInstanceRefs.delete(instanceRef)]. *)
Definition unregister (instanceRef : nat) (m : HeadModule) : HeadModule :=
  mkHeadModule (refCurrent m) (Set_delete instanceRef (headInstanceRefs m))
    (headState m) (updates m).

(** [\[...headInstanceRefs\]]: the registered ref objects, oldest
    first. *)
Definition spreadRefs (m : HeadModule) : list RefObject :=
  map (fun r => mkRef (default NEmpty (refCurrent m !! r)))
    (headInstanceRefs m).

(** [emitUpdate]; [updateHead] tells whether the context supplies the
    callback. *)
Definition emitUpdate (inAmpMode updateHead : bool) (m : HeadModule)
  : HeadModule :=
  let headState' := reduceHeadInstances (spreadRefs m) (mkOptions inAmpMode) in
  mkHeadModule (refCurrent m) (headInstanceRefs m) (Some headState')
    (if updateHead then updates m ++ [headState'] else updates m).

(** The body of [Head]: [instanceRef.current = children], and on the
    server ([typeof window === 'undefined']) the inline registration. *)
Definition Head (isServer inAmpMode updateHead : bool) (instanceRef : nat)
  (children : ReactNode) (m : HeadModule) : HeadModule :=
  let m := mkHeadModule (<[instanceRef := children]> (refCurrent m))
             (headInstanceRefs m) (headState m) (updates m) in
  if isServer then emitUpdate inAmpMode updateHead (register instanceRef m)
  else m.

(** The effects: mount, cleanup at unmount, and after every render. *)
Definition effectMount (instanceRef : nat) (m : HeadModule) : HeadModule :=
  register instanceRef m.
Definition effectUnmount (inAmpMode updateHead : bool) (instanceRef : nat)
  (m : HeadModule) : HeadModule :=
  emitUpdate inAmpMode updateHead (unregister instanceRef m).
Definition effectUpdate (inAmpMode updateHead : bool) (m : HeadModule)
  : HeadModule :=
  emitUpdate inAmpMode updateHead m.

(** [Head.rewind]: the returned [recordedState] and the module state
    afterwards. *)
Definition rewind (m : HeadModule)
  : option (list ReactElement) * HeadModule :=
  let recordedState := headState m in
  (recordedState,
   mkHeadModule (refCurrent m) (Set_clear (headInstanceRefs m)) None
     (updates m)).

End Reconciler.


(** ** The TypeError of line 88

    [h.props.hasOwnProperty(metatype)] looks the method up on [props]
    itself first.  When [props] has an own property named
    [hasOwnProperty] (here a string or [undefined], never a function)
    the call raises a TypeError, which leaves the callback, [filter],
    [reduceHeadInstances] and [emitUpdate].  [None] is that
    exception. *)

Fixpoint meta_loop_checked (h : ReactElement) (metatypes : list string)
  (st : UniqueState) : option (bool * UniqueState) :=
  match metatypes with
  | [] => Some (true, st)
  | metatype :: rest =>
      if decide (is_Some (props h !! "hasOwnProperty")) then None
      else
        match props h !! metatype with
        | None => meta_loop_checked h rest st
        | Some category =>
            if String.eqb metatype "charSet" then
              if decide (metatype ∈ metaTypes st) then Some (false, st)
              else meta_loop_checked h rest
                     (mkUnique (keys st) (tags st)
                        (metaTypes st ∪ {[metatype]}) (metaCategories st))
            else
              let categories := default ∅ (metaCategories st !! metatype) in
              if decide (category ∈ categories) then Some (false, st)
              else meta_loop_checked h rest
                     (mkUnique (keys st) (tags st) (metaTypes st)
                        (<[metatype := categories ∪ {[category]}]>
                           (metaCategories st)))
        end
  end.

(** The arrow function returned by [unique()], with its exception. *)
Definition unique_call_checked (st : UniqueState) (h : ReactElement)
  : option (bool * UniqueState) :=
  match auto_key h with
  | Some k =>
      if decide (k ∈ keys st) then Some (false, st)
      else Some (true, mkUnique (keys st ∪ {[k]}) (tags st) (metaTypes st)
                         (metaCategories st))
  | None =>
      match type h with
      | Tag t =>
          if String.eqb t "title" || String.eqb t "base" then
            if decide (t ∈ tags st) then Some (false, st)
            else Some (true, mkUnique (keys st) (tags st ∪ {[t]})
                               (metaTypes st) (metaCategories st))
          else if String.eqb t "meta" then meta_loop_checked h METATYPES st
          else Some (true, st)
      | Fragment => Some (true, st)
      end
  end.

(** [Array.prototype.filter]: an exception of the callback ends it. *)
Fixpoint filter_unique_checked (st : UniqueState) (l : list ReactElement)
  : option (list ReactElement) :=
  match l with
  | [] => Some []
  | h :: rest =>
      match unique_call_checked st h with
      | None => None
      | Some (keep, st') =>
          match filter_unique_checked st' rest with
          | None => None
          | Some kept => Some (if keep then h :: kept else kept)
          end
      end
  end.

(** [reduceHeadInstances] and [emitUpdate] with the exception: when it
    is raised nothing is returned, and [emitUpdate] is left before
    [headState] is assigned and [updateHead] is called. *)
Definition reduceHeadInstances_checked
  (toArray : ReactNode -> list ReactChild) (headInstanceRefs : list RefObject)
  (options : WithInAmpMode) : option (list ReactElement) :=
  match filter_unique_checked unique
          (precedenceList toArray headInstanceRefs options) with
  | None => None
  | Some kept => Some (imap withKeyAndClassName (reverse kept))
  end.

Definition emitUpdate_checked (toArray : ReactNode -> list ReactChild)
  (inAmpMode updateHead : bool) (m : HeadModule) : option HeadModule :=
  match reduceHeadInstances_checked toArray (spreadRefs m)
          (mkOptions inAmpMode) with
  | None => None
  | Some headState' =>
      Some (mkHeadModule (refCurrent m) (headInstanceRefs m) (Some headState')
              (if updateHead then updates m ++ [headState'] else updates m))
  end.

(** ** Vocabulary of the statements *)

(** The elements the filter treats by key alone, and those it treats by
    category. *)
Definition keyed (k : string) (h : ReactElement) : Prop :=
  auto_key h = Some k.
Definition plain_tag (t : string) (h : ReactElement) : Prop :=
  auto_key h = None ∧ type h = Tag t.
Definition plain_charSet (h : ReactElement) : Prop :=
  plain_tag "meta" h ∧ is_Some (props h !! "charSet").
Definition plain_named (v : PropValue) (h : ReactElement) : Prop :=
  plain_tag "meta" h ∧ props h !! "name" = Some v.

(** A meta element whose only identity attribute is [name]. *)
Definition name_only (h : ReactElement) : bool :=
  bool_decide (props h !! "httpEquiv" = None
               ∧ props h !! "charSet" = None
               ∧ props h !! "itemProp" = None).

Global Instance keyed_dec k h : Decision (keyed k h).
Proof. unfold keyed. apply _. Defined.
Global Instance plain_tag_dec t h : Decision (plain_tag t h).
Proof. unfold plain_tag. apply _. Defined.
Global Instance plain_charSet_dec h : Decision (plain_charSet h).
Proof. unfold plain_charSet. apply _. Defined.
Global Instance plain_named_dec v h : Decision (plain_named v h).
Proof. unfold plain_named. apply _. Defined.

(** What is left of a class of elements in a merged output: nothing
    when there was no candidate, else exactly the candidate, as the final
    [map] clones it at some index. *)
Definition survivor_of (candidate : option ReactElement)
  (out : list ReactElement) : Prop :=
  match candidate with
  | None => out = []
  | Some c => ∃ i, out = [withKeyAndClassName i c]
  end.

(** The most recently registered element of a class in a list given in
    registration order. *)
Definition latest (P : ReactElement → Prop) `{!∀ h, Decision (P h)}
  (l : list ReactElement) : option ReactElement :=
  list.last (filter P l).

(** Registration order with the defaults counted as registered before
    every instance: the precedence list read backwards. *)
Definition registrationOrder (toArray : ReactNode -> list ReactChild)
  (refs : list RefObject) (options : WithInAmpMode) : list ReactElement :=
  reverse (defaultHead "" (inAmpMode options)) ++ flattenInstances toArray refs.

(** The set recorded for one metatype: [metaCategories\[metatype\]], empty
    when the property is absent. *)
Definition categoriesOf (metatype : string) (st : UniqueState)
  : gset PropValue :=
  default ∅ (metaCategories st !! metatype).

(** The collections after the filter callback has run over a list. *)
Definition unique_run (st : UniqueState) (l : list ReactElement)
  : UniqueState :=
  fold_left (fun st h => snd (unique_call st h)) l st.

(** Flattening as one level of fragment splicing: the element children of
    a list of children, and what one child of a [Head] instance
    contributes. *)
Definition elementsOf (l : list ReactChild) : list ReactElement :=
  flat_map (fun c => match c with CElement e => [e] | _ => [] end) l.

Definition spliceOneLevel (toArray : ReactNode -> list ReactChild)
  (child : ReactChild) : list ReactElement :=
  match child with
  | CText _ | CNumber _ => []
  | CElement e =>
      match type e with
      | Fragment => elementsOf (toArray (children e))
      | Tag _ => [e]
      end
  end.

(** Builders for concrete runs: a host element from its attribute list,
    and a fragment. *)
Definition element (t : string) (k : option Key)
  (attrs : list (string * PropValue)) (children : ReactNode) : ReactElement :=
  mkElement (Tag t) k (list_to_map attrs) children.
Definition fragment (children : ReactNode) : ReactElement :=
  mkElement Fragment None ∅ children.

(** Observation of a result: tag, key and the attributes of interest. *)
Definition tagOf (e : ReactElement) : option string :=
  match type e with Tag t => Some t | Fragment => None end.
Definition attr (a : string) (e : ReactElement) : option PropValue :=
  props e !! a.

(** An element of the merged output as the clone of an element of the
    filtered array. *)
Definition clone_of (c d : ReactElement) : Prop :=
  ∃ i, d = withKeyAndClassName i c.

(** The elements no branch of the filter callback looks at: no auto key,
    neither [title] nor [base], and for a [meta] none of the
    [METATYPES] attributes. *)
Definition uncategorized (h : ReactElement) : Prop :=
  auto_key h = None
  ∧ type h ≠ Tag "title" ∧ type h ≠ Tag "base"
  ∧ (type h = Tag "meta" → Forall (fun m => props h !! m = None) METATYPES).

(** A meta without auto key whose attribute [metatype] is [v]. *)
Definition plain_category (metatype : string) (v : PropValue)
  (h : ReactElement) : Prop :=
  plain_tag "meta" h ∧ props h !! metatype = Some v.

Global Instance uncategorized_dec h : Decision (uncategorized h).
Proof. unfold uncategorized. apply _. Defined.
Global Instance plain_category_dec m v h : Decision (plain_category m v h).
Proof. unfold plain_category. apply _. Defined.

(** What the filter keeps of the instances' elements when it runs over
    them alone, in registration order. *)
Definition survivingContributions (toArray : ReactNode -> list ReactChild)
  (refs : list RefObject) : list ReactElement :=
  reverse (filter_unique unique (reverse (flattenInstances toArray refs))).

(** The module state at load time (lines 10-12): an empty [Set], and
    [headState] undefined. *)
Definition initialModule : HeadModule := mkHeadModule ∅ [] None [].

(** The ways the module state is driven: a render of a [Head] instance,
    its mount effect, its cleanup, the effect after a render, and
    [Head.rewind()]. *)
Inductive HeadOp : Type :=
| OpRender (isServer inAmpMode updateHead : bool) (instanceRef : nat)
           (children : ReactNode)
| OpMount (instanceRef : nat)
| OpUnmount (inAmpMode updateHead : bool) (instanceRef : nat)
| OpUpdate (inAmpMode updateHead : bool)
| OpRewind.

Definition runOp (toArray : ReactNode -> list ReactChild) (m : HeadModule)
  (op : HeadOp) : HeadModule :=
  match op with
  | OpRender isServer inAmpMode updateHead instanceRef children =>
      Head toArray isServer inAmpMode updateHead instanceRef children m
  | OpMount instanceRef => effectMount instanceRef m
  | OpUnmount inAmpMode updateHead instanceRef =>
      effectUnmount toArray inAmpMode updateHead instanceRef m
  | OpUpdate inAmpMode updateHead => effectUpdate toArray inAmpMode updateHead m
  | OpRewind => snd (rewind m)
  end.

(** The elements on which the callback raises the TypeError: a meta
    without auto key whose [props] has an own property
    [hasOwnProperty]. *)
Definition throwing (h : ReactElement) : Prop :=
  plain_tag "meta" h ∧ is_Some (props h !! "hasOwnProperty").

Global Instance throwing_dec h : Decision (throwing h).
Proof. unfold throwing. apply _. Defined.

(** What the collections hold once the attribute [metatype] with value
    [v] of some meta has gone through its check: [metaTypes] has
    ['charSet'], or the set of the metatype has [v]. *)
Definition recorded (metatype : string) (v : PropValue) (st : UniqueState)
  : Prop :=
  if String.eqb metatype "charSet" then "charSet" ∈ metaTypes st
  else v ∈ categoriesOf metatype st.

(** * Properties *)

(** ** The default contribution *)

Example defaultHead_runs :
  length (defaultHead "next-head" false) = 2%nat
  ∧ defaultHead "a" true = [charSet_meta "a"].
Proof. split; reflexivity. Qed.

(** The keys [Children_toArray] assigns: by index, by the caller's key,
    and joined with [':'] inside a nested array; strings are kept as
    children and are no elements. *)
Example Children_toArray_keys :
  key <$> elementsOf
            (Children_toArray
               (NArray [NElement (element "title" None [] NEmpty);
                        NString "x";
                        NElement (element "meta" (Some (KStr "a")) [] NEmpty);
                        NArray [NElement (element "base" (Some (KStr "b"))
                                            [] NEmpty)]]))
  = [Some (KStr ".0"); Some (KStr ".$a"); Some (KStr ".3:$b")].
Proof. reflexivity. Qed.

(** C8: [defaultHead] is a function of the class name and the amp flag
    alone; in normal mode it returns exactly two meta elements, the
    [charSet] one and then the viewport one with its fixed content, and in
    amp mode exactly one, the [charSet] one, which has no [name]. *)
Theorem defaultHead_contribution (className : string) :
  (∃ c v, defaultHead className false = [c; v]
          ∧ tagOf c = Some "meta" ∧ key c = Some (KStr "charSet")
          ∧ attr "charSet" c = Some (VString "utf-8")
          ∧ attr "name" c = None
          ∧ attr "className" c = Some (VString className)
          ∧ tagOf v = Some "meta" ∧ key v = Some (KStr "viewport")
          ∧ attr "name" v = Some (VString "viewport")
          ∧ attr "content" v
            = Some (VString
                      "width=device-width,minimum-scale=1,initial-scale=1")
          ∧ attr "charSet" v = None
          ∧ attr "className" v = Some (VString className)
          ∧ defaultHead className true = [c]).
Proof.
  exists (charSet_meta className), (viewport_meta className).
  repeat split; reflexivity.
Qed.

(** ** No contributor registered *)

(** C1, as the code has it: with no instance registered and amp mode
    off, the merged output is the default contribution (class name
    [next-head]) in reverse order, the viewport meta first and the
    [charSet] meta second. *)
Theorem reduceHeadInstances_no_instance
  (toArray : ReactNode -> list ReactChild) :
  reduceHeadInstances toArray [] (mkOptions false)
  = [viewport_meta "next-head"; charSet_meta "next-head"]
  ∧ reduceHeadInstances toArray [] (mkOptions false)
    = reverse (defaultHead "next-head" false).
Proof. split; reflexivity. Qed.

(** C1 as stated fails: the output is no default contribution in the
    order of [defaultHead], and it is not a [charSet] meta followed by a
    viewport meta. *)
Lemma reduceHeadInstances_no_instance_order :
  (¬ ∃ className,
       reduceHeadInstances Children_toArray [] (mkOptions false)
       = defaultHead className false)
  ∧ (¬ ∃ c v,
         reduceHeadInstances Children_toArray [] (mkOptions false) = [c; v]
         ∧ is_Some (attr "charSet" c)
         ∧ attr "name" v = Some (VString "viewport")).
Proof.
  split.
  - intros [className H].
    apply (f_equal (fun l => key <$> head l)) in H.
    vm_compute in H. discriminate H.
  - intros (c & v & H & [x Hc] & _).
    apply (f_equal (fun l => attr "charSet" <$> head l)) in H.
    cbn [head fmap option_fmap option_map] in H. rewrite Hc in H.
    vm_compute in H. discriminate H.
Qed.

(** ** Registration *)

Lemma Set_add_elem (x : nat) (s : list nat) : x ∈ Set_add x s.
Proof.
  unfold Set_add. case_decide; [done|]. apply elem_of_app. right. constructor.
Qed.

Lemma Set_delete_not_elem (x : nat) (s : list nat) : x ∉ Set_delete x s.
Proof. unfold Set_delete. rewrite list_elem_of_filter. tauto. Qed.

Lemma Set_add_idem (x : nat) (s : list nat) :
  Set_add x (Set_add x s) = Set_add x s.
Proof.
  pose proof (Set_add_elem x s) as Hin.
  unfold Set_add at 1. by case_decide.
Qed.

Lemma Set_delete_idem (x : nat) (s : list nat) :
  Set_delete x (Set_delete x s) = Set_delete x s.
Proof.
  unfold Set_delete. rewrite list_filter_filter.
  apply list_filter_iff. tauto.
Qed.

Lemma Set_add_present (x : nat) (s : list nat) : x ∈ s → Set_add x s = s.
Proof. intros Hx. unfold Set_add. by rewrite decide_True. Qed.

Lemma Set_add_fresh (x : nat) (s : list nat) :
  x ∉ s → Set_add x s = s ++ [x].
Proof. intros Hx. unfold Set_add. by rewrite decide_False. Qed.

Lemma Set_delete_absent (x : nat) (s : list nat) :
  x ∉ s → Set_delete x s = s.
Proof.
  unfold Set_delete. induction s as [|y s IH]; intros Hx; [done|].
  apply not_elem_of_cons in Hx as [Hxy Hx].
  rewrite filter_cons_True by congruence. by rewrite IH.
Qed.

Lemma Set_delete_elem (x y : nat) (s : list nat) :
  y ∈ Set_delete x s ↔ y ∈ s ∧ y ≠ x.
Proof. unfold Set_delete. rewrite list_elem_of_filter. tauto. Qed.

(** C9: registering a ref that is registered leaves the whole module
    state as it is, and so does unregistering a ref that is not
    registered; hence registering twice is registering once and
    unregistering twice is unregistering once.  Neither operation can
    fail (both are total).  Registering a new ref appends it and keeps
    the others in place; unregistering removes that ref and no other. *)
Theorem register_unregister_idempotent (h : nat) (m : HeadModule) :
  (h ∈ headInstanceRefs m → register h m = m)
  ∧ (h ∉ headInstanceRefs m → unregister h m = m)
  ∧ register h (register h m) = register h m
  ∧ unregister h (unregister h m) = unregister h m
  ∧ (h ∉ headInstanceRefs m →
     headInstanceRefs (register h m) = headInstanceRefs m ++ [h])
  ∧ (∀ x, x ∈ headInstanceRefs (unregister h m)
          ↔ x ∈ headInstanceRefs m ∧ x ≠ h)
  ∧ h ∈ headInstanceRefs (register h m)
  ∧ h ∉ headInstanceRefs (unregister h m).
Proof.
  destruct m as [cur refs st ups].
  unfold register, unregister;
    cbn [refCurrent headInstanceRefs headState updates].
  rewrite Set_add_idem, Set_delete_idem. split_and!.
  - intros Hin. by rewrite Set_add_present.
  - intros Hin. by rewrite Set_delete_absent.
  - done.
  - done.
  - intros Hin. by apply Set_add_fresh.
  - intros x. apply Set_delete_elem.
  - apply Set_add_elem.
  - apply Set_delete_not_elem.
Qed.

(** C9 at a registry of two refs: registering the first again and
    unregistering a third change nothing. *)
Lemma register_unregister_idempotent_witness :
  let m := mkHeadModule ∅ [1%nat; 2%nat] None [] in
  register 1 m = m ∧ unregister 3 m = m.
Proof.
  cbv zeta. split.
  - apply (proj1 (register_unregister_idempotent 1
                    (mkHeadModule ∅ [1%nat; 2%nat] None []))).
    apply (bool_decide_unpack _). vm_compute. exact I.
  - apply (proj1 (proj2 (register_unregister_idempotent 3
                           (mkHeadModule ∅ [1%nat; 2%nat] None [])))).
    apply (bool_decide_unpack _). vm_compute. exact I.
Defined.

(** ** Rewinding *)

(** C5: [rewind] right after [emitUpdate] returns the result that
    [emitUpdate] computed (the one it also handed to [updateHead]); a
    second [rewind] returns [undefined]; after any [rewind] the registry
    is empty and [headState] is cleared. *)
Theorem rewind_after_emitUpdate (toArray : ReactNode -> list ReactChild)
  (inAmpMode updateHead : bool) (m : HeadModule) :
  let m1 := emitUpdate toArray inAmpMode updateHead m in
  let '(first, m2) := rewind m1 in
  let '(second, m3) := rewind m2 in
  first = Some (reduceHeadInstances toArray (spreadRefs m)
                  (mkOptions inAmpMode))
  ∧ first = headState m1
  ∧ (if updateHead then first = list.last (updates m1)
     else updates m1 = updates m)
  ∧ second = None
  ∧ headInstanceRefs m2 = [] ∧ headState m2 = None
  ∧ headInstanceRefs m3 = [] ∧ headState m3 = None
  ∧ ∀ m' : HeadModule,
      headInstanceRefs (snd (rewind m')) = []
      ∧ headState (snd (rewind m')) = None
      ∧ fst (rewind m') = headState m'.
Proof.
  cbn. repeat split; try reflexivity.
  destruct updateHead; cbn; [|reflexivity].
  by rewrite last_snoc.
Qed.

(** ** Flattening *)

Lemma fold_left_append {A B : Type} (f : B -> list A) (l : list B)
  (init : list A) :
  fold_left (fun acc x => acc ++ f x) l init = init ++ flat_map f l.
Proof.
  revert init. induction l as [|x l IH]; intros init; cbn.
  - by rewrite app_nil_r.
  - by rewrite IH, app_assoc.
Qed.

Lemma fold_left_pointwise {A B : Type} (f g : A -> B -> A) (l : list B)
  (init : A) :
  (∀ a b, f a b = g a b) → fold_left f l init = fold_left g l init.
Proof.
  intros Hfg. revert init. induction l as [|x l IH]; intros init; cbn; [done|].
  by rewrite Hfg, IH.
Qed.

Lemma flat_map_flat_map {A B C : Type} (f : B -> list C) (g : A -> list B)
  (l : list A) :
  flat_map f (flat_map g l) = flat_map (fun x => flat_map f (g x)) l.
Proof.
  induction l as [|x l IH]; cbn; [done|].
  by rewrite flat_map_app, IH.
Qed.

Lemma fragmentReducer_elementsOf (l : list ReactChild) :
  fold_left fragmentReducer l [] = elementsOf l.
Proof.
  unfold elementsOf. rewrite <- (app_nil_l (flat_map _ l)).
  rewrite <- fold_left_append. apply fold_left_pointwise.
  intros acc [s|n|e]; cbn; by rewrite ?app_nil_r.
Qed.

Lemma onlyReactElement_splice (toArray : ReactNode -> list ReactChild)
  (acc : list ReactElement) (child : ReactChild) :
  onlyReactElement toArray acc child = acc ++ spliceOneLevel toArray child.
Proof.
  destruct child as [s|n|e]; cbn; rewrite ?app_nil_r; try done.
  destruct (type e); [|done]. by rewrite fragmentReducer_elementsOf.
Qed.

(** C6, as the code has it: flattening concatenates the children of all
    instances in the order of registration and splices fragments one
    level deep: strings and numbers are dropped at the top level and
    directly inside a fragment, a fragment is replaced by its element
    children, and every other element (a fragment nested in a fragment
    included) is kept as it is. *)
Theorem flattenInstances_one_level (toArray : ReactNode -> list ReactChild)
  (refs : list RefObject) :
  flattenInstances toArray refs
  = flat_map
      (fun r => flat_map (spliceOneLevel toArray) (toArray (current r)))
      refs.
Proof.
  unfold flattenInstances, collectChildren.
  rewrite fold_left_append, app_nil_l.
  rewrite <- flat_map_flat_map.
  rewrite <- (app_nil_l (flat_map (spliceOneLevel toArray) _)).
  rewrite <- fold_left_append. apply fold_left_pointwise.
  intros acc child. apply onlyReactElement_splice.
Qed.

(** C6 as stated fails: a fragment nested in a fragment is not replaced
    by its children; it stays in the flattened list, with its title and
    its text still inside. *)
Lemma flattenInstances_nested_fragment :
  let title := element "title" None [] (NString "t") in
  let nested := fragment (NArray [NElement title; NString "text"]) in
  let out :=
    flattenInstances Children_toArray
      [mkRef (NElement (fragment (NElement nested)))] in
  ¬ Forall (fun e => type e ≠ Fragment) out
  ∧ (¬ ∃ e, e ∈ out ∧ tagOf e = Some "title")
  ∧ out = [cloneAndReplaceKey nested ".0"].
Proof.
  cbv zeta.
  assert (flattenInstances Children_toArray
            [mkRef (NElement (fragment (NElement
               (fragment (NArray [NElement (element "title" None []
                                             (NString "t"));
                                  NString "text"])))))]
          = [cloneAndReplaceKey
               (fragment (NArray [NElement (element "title" None []
                                             (NString "t"));
                                  NString "text"])) ".0"]) as ->
      by reflexivity.
  split; [|split; [|reflexivity]].
  - intros H. apply Forall_cons_1 in H as [H _]. by apply H.
  - intros (e & He & Ht). apply list_elem_of_singleton in He. by subst e.
Qed.

(** ** The filter: which of several candidates for one slot survive

    The callback keeps one record per "slot" (a key, a tag, a metatype
    value).  For a class [P] of elements competing for a slot: once the
    slot is taken every [P] element is rejected; the first [P] element
    met while the slot is free takes it; elements outside [P] leave the
    slot alone. *)

Section Slot.
Context (P : ReactElement → Prop) `{!∀ h, Decision (P h)}.
Context (slot : UniqueState → Prop) (passes : ReactElement → Prop).

Hypothesis taken_rejects : ∀ st h,
  P h → slot st →
  fst (unique_call st h) = false ∧ slot (snd (unique_call st h)).
Hypothesis free_takes : ∀ st h,
  P h → ¬ slot st → slot (snd (unique_call st h)).
Hypothesis others_frame : ∀ st h,
  ¬ P h → slot (snd (unique_call st h)) ↔ slot st.
Hypothesis free_passes : ∀ st h,
  P h → passes h → ¬ slot st → fst (unique_call st h) = true.

Lemma filter_unique_taken (l : list ReactElement) (st : UniqueState) :
  slot st → filter P (filter_unique st l) = [].
Proof.
  revert st. induction l as [|h l IH]; intros st Hst; [done|].
  cbn [filter_unique]. destruct (unique_call st h) as [keep st'] eqn:E.
  destruct (decide (P h)) as [HP|HP].
  - destruct (taken_rejects st h HP Hst) as [Hk Hs]. rewrite E in Hk, Hs.
    cbn in Hk, Hs. subst keep. by apply IH.
  - pose proof (others_frame st h HP) as Hs. rewrite E in Hs. cbn in Hs.
    destruct keep; [rewrite filter_cons_False by done|]; apply IH; tauto.
Qed.

Lemma filter_unique_at_most_first (l : list ReactElement)
  (st : UniqueState) :
  ¬ slot st →
  filter P (filter_unique st l) = []
  ∨ filter P (filter_unique st l) = take 1 (filter P l).
Proof.
  revert st. induction l as [|h l IH]; intros st Hst; [by left|].
  cbn [filter_unique]. destruct (unique_call st h) as [keep st'] eqn:E.
  destruct (decide (P h)) as [HP|HP].
  - pose proof (free_takes st h HP Hst) as Hs. rewrite E in Hs. cbn in Hs.
    rewrite (filter_cons_True P h l) by done. cbn [take].
    destruct keep.
    + right. rewrite filter_cons_True by done.
      by rewrite filter_unique_taken.
    + left. by apply filter_unique_taken.
  - pose proof (others_frame st h HP) as Hs. rewrite E in Hs. cbn in Hs.
    rewrite (filter_cons_False P h l) by done.
    destruct keep; [rewrite filter_cons_False by done|]; apply IH; tauto.
Qed.

Lemma filter_unique_first_passes (l : list ReactElement)
  (st : UniqueState) (c : ReactElement) :
  ¬ slot st → head (filter P l) = Some c → passes c →
  filter P (filter_unique st l) = [c].
Proof.
  revert st. induction l as [|h l IH]; intros st Hst Hc Hg; [done|].
  cbn [filter_unique]. destruct (unique_call st h) as [keep st'] eqn:E.
  destruct (decide (P h)) as [HP|HP].
  - rewrite filter_cons_True in Hc by done. cbn in Hc.
    injection Hc as ->.
    pose proof (free_takes st c HP Hst) as Hs.
    pose proof (free_passes st c HP Hg Hst) as Hk.
    rewrite E in Hs, Hk. cbn in Hs, Hk. subst keep.
    rewrite filter_cons_True by done. by rewrite filter_unique_taken.
  - pose proof (others_frame st h HP) as Hs. rewrite E in Hs. cbn in Hs.
    rewrite filter_cons_False in Hc by done.
    destruct keep; [rewrite filter_cons_False by done|]; apply IH; tauto.
Qed.
Lemma filter_unique_first (l : list ReactElement) (st : UniqueState) :
  (∀ h, P h → passes h) → ¬ slot st →
  filter P (filter_unique st l) = option_list (head (filter P l)).
Proof.
  intros Hall Hst. destruct (head (filter P l)) as [c|] eqn:Hc.
  - apply filter_unique_first_passes; [done..|]. apply Hall.
    apply head_Some_elem_of in Hc. by apply list_elem_of_filter in Hc as [? _].
  - apply head_None in Hc.
    destruct (filter_unique_at_most_first l st Hst) as [->| ->]; [done|].
    by rewrite Hc.
Qed.
End Slot.

(** When only survival reveals that the slot was free: at most one
    element of the class survives. *)
Section AtMostOne.
Context (P : ReactElement → Prop) `{!∀ h, Decision (P h)}.
Context (slot : UniqueState → Prop).

Hypothesis survivor_takes : ∀ st h,
  P h → fst (unique_call st h) = true →
  ¬ slot st ∧ slot (snd (unique_call st h)).
Hypothesis slot_stays : ∀ st h, slot st → slot (snd (unique_call st h)).

Lemma filter_unique_none_after (l : list ReactElement) (st : UniqueState) :
  slot st → filter P (filter_unique st l) = [].
Proof.
  revert st. induction l as [|h l IH]; intros st Hst; [done|].
  cbn [filter_unique]. destruct (unique_call st h) as [keep st'] eqn:E.
  pose proof (slot_stays st h Hst) as Hs. rewrite E in Hs. cbn in Hs.
  destruct keep; [|by apply IH].
  destruct (decide (P h)) as [HP|HP].
  - destruct (survivor_takes st h HP) as [Hn _]; [by rewrite E|done].
  - rewrite filter_cons_False by done. by apply IH.
Qed.

Lemma filter_unique_at_most_one (l : list ReactElement) (st : UniqueState) :
  (length (filter P (filter_unique st l)) ≤ 1)%nat.
Proof.
  revert st. induction l as [|h l IH]; intros st; [cbn; lia|].
  cbn [filter_unique]. destruct (unique_call st h) as [keep st'] eqn:E.
  destruct keep; [|by apply IH].
  destruct (decide (P h)) as [HP|HP].
  - destruct (survivor_takes st h HP) as [_ Hs]; [by rewrite E|].
    rewrite E in Hs. cbn in Hs.
    rewrite filter_cons_True by done.
    rewrite filter_unique_none_after by done. cbn; lia.
  - rewrite filter_cons_False by done. by apply IH.
Qed.
End AtMostOne.

(** ** What one call of the filter callback records *)

Ltac meta_step m IH :=
  cbn [meta_loop];
  destruct (props _ !! m) eqn:?;
  [ destruct (String.eqb m "charSet") eqn:?; case_decide; cbn [fst snd];
    try done; try (apply IH; cbn; try done)
  | try (apply IH; cbn; try done) ].

Lemma categoriesOf_insert (m m' : string) (s : gset PropValue)
  (st : UniqueState) :
  categoriesOf m' (mkUnique (keys st) (tags st) (metaTypes st)
                     (<[m := s]> (metaCategories st)))
  = if decide (m = m') then s else categoriesOf m' st.
Proof.
  unfold categoriesOf. cbn. case_decide as Hm.
  - subst. by rewrite lookup_insert_eq.
  - by rewrite lookup_insert_ne.
Qed.

Lemma meta_loop_keys (h : ReactElement) (mts : list string)
  (st : UniqueState) :
  keys (snd (meta_loop h mts st)) = keys st.
Proof.
  revert st. induction mts as [|m mts IH]; intros st; [done|].
  meta_step m IH; by rewrite IH.
Qed.

Lemma meta_loop_tags (h : ReactElement) (mts : list string)
  (st : UniqueState) :
  tags (snd (meta_loop h mts st)) = tags st.
Proof.
  revert st. induction mts as [|m mts IH]; intros st; [done|].
  meta_step m IH; by rewrite IH.
Qed.

Lemma meta_loop_metaTypes_mono (h : ReactElement) (mts : list string)
  (st : UniqueState) (x : string) :
  x ∈ metaTypes st → x ∈ metaTypes (snd (meta_loop h mts st)).
Proof.
  revert st. induction mts as [|m mts IH]; intros st Hx; [done|].
  meta_step m IH. set_solver.
Qed.

Lemma meta_loop_categories_mono (h : ReactElement) (mts : list string)
  (st : UniqueState) (m' : string) (v : PropValue) :
  v ∈ categoriesOf m' st → v ∈ categoriesOf m' (snd (meta_loop h mts st)).
Proof.
  revert st. induction mts as [|m mts IH]; intros st Hv; [done|].
  meta_step m IH.
  rewrite categoriesOf_insert. case_decide; [subst|done].
  apply elem_of_union. by left.
Qed.

Lemma meta_loop_categories_frame (h : ReactElement) (mts : list string)
  (st : UniqueState) (m' : string) (v : PropValue) :
  props h !! m' ≠ Some v →
  v ∈ categoriesOf m' (snd (meta_loop h mts st)) → v ∈ categoriesOf m' st.
Proof.
  intros Hne. revert st. induction mts as [|m mts IH]; intros st Hv; [done|].
  revert Hv. meta_step m IH; intros Hv; try by apply IH.
  apply IH in Hv. rewrite categoriesOf_insert in Hv.
  case_decide; [subst m'|done].
  apply elem_of_union in Hv as [Hv|Hv]; [done|].
  apply elem_of_singleton in Hv. congruence.
Qed.

Lemma meta_loop_charSet (h : ReactElement) (mts : list string)
  (st : UniqueState) :
  "charSet" ∈ mts → is_Some (props h !! "charSet") →
  fst (meta_loop h mts st) = true →
  ("charSet" ∉ metaTypes st)
  ∧ "charSet" ∈ metaTypes (snd (meta_loop h mts st)).
Proof.
  intros Hin [cs Hcs]. revert st Hin.
  induction mts as [|m mts IH]; intros st Hin;
    [destruct (not_elem_of_nil _ Hin)|].
  apply elem_of_cons in Hin.
  cbn [meta_loop]. destruct (props h !! m) as [category|] eqn:Hp.
  - destruct (String.eqb m "charSet") eqn:Heq.
    + apply String.eqb_eq in Heq. subst m.
      case_decide; cbn [fst snd]; [done|]. intros _. split; [done|].
      apply meta_loop_metaTypes_mono. cbn.
      apply elem_of_union. right. by apply elem_of_singleton.
    + apply String.eqb_neq in Heq.
      destruct Hin as [Hin|Hin]; [congruence|].
      case_decide; cbn [fst snd]; [done|]. intros Hk.
      by apply IH in Hk.
  - destruct Hin as [Hin|Hin]; [congruence|]. intros Hk. by apply IH in Hk.
Qed.

(** A keyed element is answered from [keys] alone. *)
Lemma unique_call_keyed (k : string) (h : ReactElement) (st : UniqueState) :
  keyed k h →
  unique_call st h
  = if decide (k ∈ keys st) then (false, st)
    else (true, mkUnique (keys st ∪ {[k]}) (tags st) (metaTypes st)
                  (metaCategories st)).
Proof. unfold keyed, unique_call. by intros ->. Qed.

Ltac unique_cases h :=
  unfold unique_call;
  destruct (auto_key h) eqn:?;
  [ case_decide
  | destruct (type h) eqn:?;
    [ | match goal with
        | |- context [String.eqb ?t "title" || String.eqb ?t "base"] =>
            destruct (String.eqb t "title" || String.eqb t "base") eqn:?;
            [ case_decide | destruct (String.eqb t "meta") eqn:? ]
        end ] ];
  cbn [fst snd keys tags metaTypes metaCategories].

Lemma unique_call_keys_frame (k : string) (h : ReactElement)
  (st : UniqueState) :
  ¬ keyed k h → k ∈ keys (snd (unique_call st h)) ↔ k ∈ keys st.
Proof.
  unfold keyed. intros Hk. unique_cases h; try done.
  - rewrite elem_of_union, elem_of_singleton. split; [|tauto].
    intros [?|?]; [done|]. congruence.
  - by rewrite meta_loop_keys.
Qed.

Lemma unique_call_tags_frame (t : string) (h : ReactElement)
  (st : UniqueState) :
  ¬ plain_tag t h → t ∈ tags (snd (unique_call st h)) ↔ t ∈ tags st.
Proof.
  unfold plain_tag. intros Ht. unique_cases h; try done.
  - rewrite elem_of_union, elem_of_singleton. split; [|tauto].
    intros [?|?]; [done|]. subst. tauto.
  - by rewrite meta_loop_tags.
Qed.

Lemma unique_call_plain_tag (t : string) (h : ReactElement)
  (st : UniqueState) :
  String.eqb t "title" || String.eqb t "base" = true →
  plain_tag t h →
  unique_call st h
  = if decide (t ∈ tags st) then (false, st)
    else (true, mkUnique (keys st) (tags st ∪ {[t]}) (metaTypes st)
                  (metaCategories st)).
Proof.
  unfold plain_tag, unique_call. intros Ht [-> ->]. by rewrite Ht.
Qed.

Lemma unique_call_plain_meta (h : ReactElement) (st : UniqueState) :
  plain_tag "meta" h → unique_call st h = meta_loop h METATYPES st.
Proof. unfold plain_tag, unique_call. by intros [-> ->]. Qed.

Lemma unique_call_metaTypes_mono (x : string) (h : ReactElement)
  (st : UniqueState) :
  x ∈ metaTypes st → x ∈ metaTypes (snd (unique_call st h)).
Proof.
  intros Hx. unique_cases h; try done. by apply meta_loop_metaTypes_mono.
Qed.

Lemma unique_call_categories_mono (m : string) (v : PropValue)
  (h : ReactElement) (st : UniqueState) :
  v ∈ categoriesOf m st → v ∈ categoriesOf m (snd (unique_call st h)).
Proof.
  intros Hv. unique_cases h; try done. by apply meta_loop_categories_mono.
Qed.

Lemma unique_call_categories_frame (m : string) (v : PropValue)
  (h : ReactElement) (st : UniqueState) :
  ¬ (plain_tag "meta" h ∧ props h !! m = Some v) →
  v ∈ categoriesOf m (snd (unique_call st h)) → v ∈ categoriesOf m st.
Proof.
  unfold plain_tag. intros Hn. unique_cases h; try done.
  apply meta_loop_categories_frame.
  match goal with H : String.eqb _ "meta" = true |- _ =>
    apply String.eqb_eq in H; subst end.
  tauto.
Qed.

(** ** The final [map] keeps the class of an element *)

Lemma string_of_index_not_auto (i : nat) :
  String.prefix ".$" (string_of_index i) = false.
Proof. unfold string_of_index. by destruct (Nat.to_uint i). Qed.

Lemma string_of_number_not_auto (n : SafeInteger) :
  String.prefix ".$" (string_of_number n) = false.
Proof.
  unfold string_of_number. destruct (Z.to_int (value n)) as [d|d]; [|done].
  by destruct d.
Qed.

Lemma auto_key_withKeyAndClassName (i : nat) (c : ReactElement) :
  auto_key (withKeyAndClassName i c) = auto_key c.
Proof.
  destruct c as [t k p ch]. unfold withKeyAndClassName, cloneElement, auto_key.
  cbn [key type props children].
  destruct k as [[s|n]|]; cbn [truthy_key string_of_key].
  - destruct (truthy_string s) eqn:Hs; [by rewrite Hs|].
    by rewrite string_of_index_not_auto, andb_false_r.
  - destruct (negb (value n =? 0)%Z).
    + by rewrite string_of_number_not_auto, andb_false_r.
    + by rewrite string_of_index_not_auto, andb_false_r.
  - by rewrite string_of_index_not_auto, andb_false_r.
Qed.

Lemma type_withKeyAndClassName (i : nat) (c : ReactElement) :
  type (withKeyAndClassName i c) = type c.
Proof. done. Qed.

Lemma props_withKeyAndClassName (i : nat) (c : ReactElement) (a : string) :
  a ≠ "className" → props (withKeyAndClassName i c) !! a = props c !! a.
Proof.
  intros Ha. unfold withKeyAndClassName, cloneElement. cbn [props].
  by rewrite lookup_insert_ne.
Qed.

Lemma keyed_stable (k : string) (i : nat) (c : ReactElement) :
  keyed k (withKeyAndClassName i c) ↔ keyed k c.
Proof. unfold keyed. by rewrite auto_key_withKeyAndClassName. Qed.

Lemma plain_tag_stable (t : string) (i : nat) (c : ReactElement) :
  plain_tag t (withKeyAndClassName i c) ↔ plain_tag t c.
Proof.
  unfold plain_tag.
  by rewrite auto_key_withKeyAndClassName, type_withKeyAndClassName.
Qed.

Lemma plain_charSet_stable (i : nat) (c : ReactElement) :
  plain_charSet (withKeyAndClassName i c) ↔ plain_charSet c.
Proof.
  unfold plain_charSet.
  by rewrite plain_tag_stable, props_withKeyAndClassName.
Qed.


Section Stable.
Context (P : ReactElement → Prop) `{!∀ h, Decision (P h)}.
Hypothesis stable : ∀ i c, P (withKeyAndClassName i c) ↔ P c.

Lemma filter_imap_stable (g : nat → nat) (l : list ReactElement) :
  Forall2 (fun c d => ∃ i, d = withKeyAndClassName i c)
    (filter P l) (filter P (imap (fun i => withKeyAndClassName (g i)) l)).
Proof.
  revert g. induction l as [|x l IH]; intros g; [constructor|].
  cbn [imap]. specialize (IH (g ∘ S)).
  destruct (decide (P x)) as [HP|HP].
  - rewrite !filter_cons_True by (done || by apply stable).
    constructor; [by eexists|done].
  - rewrite !filter_cons_False by (done || by rewrite stable). done.
Qed.

Lemma reduceHeadInstances_filter (toArray : ReactNode -> list ReactChild)
  (refs : list RefObject) (options : WithInAmpMode) :
  Forall2 (fun c d => ∃ i, d = withKeyAndClassName i c)
    (reverse (filter P (filter_unique unique
                          (precedenceList toArray refs options))))
    (filter P (reduceHeadInstances toArray refs options)).
Proof.
  rewrite <- filter_reverse. apply (filter_imap_stable id).
Qed.

Lemma reduceHeadInstances_survivor (toArray : ReactNode -> list ReactChild)
  (refs : list RefObject) (options : WithInAmpMode)
  (candidate : option ReactElement) :
  filter P (filter_unique unique (precedenceList toArray refs options))
  = option_list candidate →
  survivor_of candidate (filter P (reduceHeadInstances toArray refs options)).
Proof.
  intros Hf. pose proof (reduceHeadInstances_filter toArray refs options) as HF.
  rewrite Hf in HF. destruct candidate as [c|]; cbn in *.
  - apply Forall2_cons_inv_l in HF as (d & l' & [i ->] & Hl & ->).
    apply Forall2_nil_inv_l in Hl as ->. by exists i.
  - by apply Forall2_nil_inv_l in HF.
Qed.

Lemma reduceHeadInstances_filter_length
  (toArray : ReactNode -> list ReactChild)
  (refs : list RefObject) (options : WithInAmpMode) :
  length (filter P (reduceHeadInstances toArray refs options))
  = length (filter P (filter_unique unique
                        (precedenceList toArray refs options))).
Proof.
  pose proof (reduceHeadInstances_filter toArray refs options) as HF.
  apply Forall2_length in HF. by rewrite length_reverse in HF.
Qed.
End Stable.

Lemma precedenceList_registrationOrder
  (toArray : ReactNode -> list ReactChild) (refs : list RefObject)
  (options : WithInAmpMode) :
  precedenceList toArray refs options
  = reverse (registrationOrder toArray refs options).
Proof.
  unfold precedenceList, registrationOrder.
  by rewrite reverse_app, reverse_involutive.
Qed.

Lemma head_filter_precedenceList (P : ReactElement → Prop)
  `{!∀ h, Decision (P h)} (toArray : ReactNode -> list ReactChild)
  (refs : list RefObject) (options : WithInAmpMode) :
  head (filter P (precedenceList toArray refs options))
  = latest P (registrationOrder toArray refs options).
Proof.
  rewrite precedenceList_registrationOrder, filter_reverse.
  apply head_reverse.
Qed.


Lemma latest_registrationOrder (P : ReactElement → Prop)
  `{!∀ h, Decision (P h)} (toArray : ReactNode -> list ReactChild)
  (refs : list RefObject) (options : WithInAmpMode) :
  filter P (defaultHead "" (inAmpMode options)) = [] →
  latest P (registrationOrder toArray refs options)
  = latest P (flattenInstances toArray refs).
Proof.
  intros Hd. unfold latest, registrationOrder.
  by rewrite list.filter_app, filter_reverse, Hd.
Qed.

(** ** Elements with an auto key *)

Lemma defaultHead_not_keyed (k className : string) (inAmpMode : bool) :
  filter (keyed k) (defaultHead className inAmpMode) = [].
Proof. by destruct inAmpMode. Qed.

Lemma filter_unique_keyed (k : string) (l : list ReactElement) :
  filter (keyed k) (filter_unique unique l)
  = option_list (head (filter (keyed k) l)).
Proof.
  apply (filter_unique_first (keyed k) (fun st => k ∈ keys st)
           (fun _ => True)); try done.
  - intros st h Hk Hin. rewrite (unique_call_keyed k) by done. by case_decide.
  - intros st h Hk Hin. rewrite (unique_call_keyed k) by done.
    case_decide; [done|]. cbn. apply elem_of_union. right.
    by apply elem_of_singleton.
  - intros st h. apply (unique_call_keys_frame k).
  - intros st h Hk _ Hin. rewrite (unique_call_keyed k) by done. by case_decide.
Qed.

Lemma auto_prefix (s : string) :
  String.prefix ".$" (String "." (String "$" s)) = true.
Proof. by destruct s. Qed.

(** C7: an element whose key starts with ['.$'] is answered by the
    filter callback from the set of keys alone, whatever its tag and
    attributes, and the records of titles, bases and metas are left as
    they were; in the merged output, of all elements with one such key
    exactly the most recently registered one is left. *)
Theorem auto_key_dedup (toArray : ReactNode -> list ReactChild)
  (refs : list RefObject) (options : WithInAmpMode) :
  (∀ (t : ElementType) (s : string) (p : gmap string PropValue)
     (ch : ReactNode) (st : UniqueState),
      let k := (".$" ++ s)%string in
      keyed k (mkElement t (Some (KStr k)) p ch)
      ∧ unique_call st (mkElement t (Some (KStr k)) p ch)
        = (bool_decide (k ∉ keys st),
           mkUnique (keys st ∪ {[k]}) (tags st) (metaTypes st)
             (metaCategories st)))
  ∧ (∀ (h : ReactElement) (k : string),
       keyed k h
       ↔ key h = Some (KStr k) ∧ String.prefix ".$" k = true)
  ∧ (∀ k : string,
       survivor_of (latest (keyed k) (flattenInstances toArray refs))
         (filter (keyed k) (reduceHeadInstances toArray refs options))).
Proof.
  split; [|split].
  - intros t s p ch st k.
    assert (keyed k (mkElement t (Some (KStr k)) p ch)) as Hk
      by (subst k; unfold keyed, auto_key; cbn [key];
          change (".$" ++ s)%string with (String "." (String "$" s));
          by rewrite auto_prefix).
    split; [done|]. rewrite (unique_call_keyed k) by done.
    case_decide as Hin.
    + rewrite bool_decide_eq_false_2 by tauto.
      assert (keys st ∪ {[k]} = keys st) as ->
        by (rewrite (comm_L (∪)); by apply subseteq_union_1_L,
                                       singleton_subseteq_l).
      by destruct st.
    + by rewrite bool_decide_eq_true_2.
  - intros [t [[s|n]|] p ch] k; unfold keyed, auto_key; cbn [key].
    + destruct (truthy_string s) eqn:Hs;
        destruct (String.prefix ".$" s) eqn:Hp; cbn [andb].
      * split; [by intros [= ->]|by intros [[= ->] _]].
      * split; [done|]. intros [[= ->] ?]. congruence.
      * by destruct s.
      * split; [done|]. intros [[= ->] ?]. congruence.
    + split; [done|]. by intros [? _].
    + split; [done|]. by intros [? _].
  - intros k.
    rewrite <- (latest_registrationOrder (keyed k) toArray refs options)
      by apply defaultHead_not_keyed.
    apply reduceHeadInstances_survivor; [apply keyed_stable|].
    rewrite filter_unique_keyed. by rewrite head_filter_precedenceList.
Qed.

(** ** Titles and bases *)

Lemma defaultHead_no_plain_tag (t className : string) (inAmpMode : bool) :
  t ≠ "meta" → filter (plain_tag t) (defaultHead className inAmpMode) = [].
Proof.
  intros Ht.
  assert (∀ d, type d = Tag "meta" → ¬ plain_tag t d) as Hn
    by (intros d Hd [_ Hd']; congruence).
  destruct inAmpMode; cbn [defaultHead negb app];
    by rewrite !filter_cons_False by (by apply Hn).
Qed.

Lemma filter_unique_plain_tag (t : string) (l : list ReactElement) :
  String.eqb t "title" || String.eqb t "base" = true →
  filter (plain_tag t) (filter_unique unique l)
  = option_list (head (filter (plain_tag t) l)).
Proof.
  intros Ht.
  apply (filter_unique_first (plain_tag t) (fun st => t ∈ tags st)
           (fun _ => True)); try done.
  - intros st h Hp Hin. rewrite (unique_call_plain_tag t) by done.
    by case_decide.
  - intros st h Hp Hin. rewrite (unique_call_plain_tag t) by done.
    case_decide; [done|]. cbn. apply elem_of_union. right.
    by apply elem_of_singleton.
  - intros st h. apply (unique_call_tags_frame t).
  - intros st h Hp _ Hin. rewrite (unique_call_plain_tag t) by done.
    by case_decide.
Qed.

Lemma plain_tag_survivor (t : string)
  (toArray : ReactNode -> list ReactChild) (refs : list RefObject)
  (options : WithInAmpMode) :
  String.eqb t "title" || String.eqb t "base" = true →
  survivor_of (latest (plain_tag t) (flattenInstances toArray refs))
    (filter (plain_tag t) (reduceHeadInstances toArray refs options)).
Proof.
  intros Ht.
  assert (t ≠ "meta") as Hm by (intros ->; discriminate Ht).
  rewrite <- (latest_registrationOrder (plain_tag t) toArray refs options)
    by by apply defaultHead_no_plain_tag.
  apply reduceHeadInstances_survivor; [apply plain_tag_stable|].
  rewrite filter_unique_plain_tag by done.
  by rewrite head_filter_precedenceList.
Qed.

Lemma survivor_of_length (candidate : option ReactElement)
  (out : list ReactElement) :
  survivor_of candidate out → (length out ≤ 1)%nat.
Proof.
  destruct candidate as [c|]; cbn.
  - intros [i ->]. cbn. lia.
  - intros ->. cbn. lia.
Qed.

(** C2, as the code has it: of the [title] elements whose key does not
    start with ['.$'] at most one is left in the merged output, and it is
    the most recently registered one; the same holds for [base]; the
    defaults contain neither, so what is left always comes from a
    registered instance.  (Elements keyed ['.$...'] are deduplicated by
    key only, see C7.) *)
Theorem title_base_dedup (toArray : ReactNode -> list ReactChild)
  (refs : list RefObject) (options : WithInAmpMode) :
  let out := reduceHeadInstances toArray refs options in
  survivor_of (latest (plain_tag "title") (flattenInstances toArray refs))
    (filter (plain_tag "title") out)
  ∧ survivor_of (latest (plain_tag "base") (flattenInstances toArray refs))
      (filter (plain_tag "base") out)
  ∧ (length (filter (plain_tag "title") out) ≤ 1)%nat
  ∧ (length (filter (plain_tag "base") out) ≤ 1)%nat
  ∧ Forall (fun d => tagOf d ≠ Some "title" ∧ tagOf d ≠ Some "base")
      (defaultHead "" (inAmpMode options)).
Proof.
  cbv zeta.
  pose proof (plain_tag_survivor "title" toArray refs options eq_refl) as Ht.
  pose proof (plain_tag_survivor "base" toArray refs options eq_refl) as Hb.
  repeat split; try done; try by eapply survivor_of_length.
  destruct (inAmpMode options); repeat constructor; done.
Qed.

(** C2 as stated fails: two instances that each supply a keyed title
    (the keys become ['.$a'] and ['.$b']) leave two [title] elements in
    the merged output. *)
Lemma title_base_dedup_keyed_titles :
  let out :=
    reduceHeadInstances Children_toArray
      [mkRef (NElement (element "title" (Some (KStr "a")) [] (NString "A")));
       mkRef (NElement (element "title" (Some (KStr "b")) [] (NString "B")))]
      (mkOptions false) in
  ¬ (length (filter (fun e => tagOf e = Some "title") out) ≤ 1)%nat
  ∧ (key <$> filter (fun e => tagOf e = Some "title") out)
    = [Some (KStr ".$a"); Some (KStr ".$b")].
Proof.
  cbv zeta. split.
  - vm_compute. lia.
  - vm_compute. reflexivity.
Qed.

(** ** Metas with a [charSet] *)

Lemma filter_unique_plain_charSet (st : UniqueState)
  (l : list ReactElement) :
  (length (filter plain_charSet (filter_unique st l)) ≤ 1)%nat.
Proof.
  apply (filter_unique_at_most_one plain_charSet
           (fun st => "charSet" ∈ metaTypes st)).
  - intros st' h [Hm Hcs]. rewrite (unique_call_plain_meta h st' Hm).
    apply meta_loop_charSet; [|done].
    unfold METATYPES. apply list_elem_of_In. cbn. tauto.
  - intros st' h. apply unique_call_metaTypes_mono.
Qed.

(** C3, as the code has it: of the [meta] elements that carry a
    [charSet] attribute and whose key does not start with ['.$'], at most
    one is left in the merged output, over all instances and the
    defaults. *)
Theorem charSet_dedup (toArray : ReactNode -> list ReactChild)
  (refs : list RefObject) (options : WithInAmpMode) :
  (length (filter plain_charSet (reduceHeadInstances toArray refs options))
   ≤ 1)%nat.
Proof.
  rewrite (reduceHeadInstances_filter_length plain_charSet)
    by apply plain_charSet_stable.
  apply filter_unique_plain_charSet.
Qed.

(** C3 as stated fails: one instance that supplies a keyed [charSet]
    meta (its key becomes ['.$cs']) leaves two metas with a [charSet]
    attribute in the merged output, its own and the default one. *)
Lemma charSet_dedup_keyed_meta :
  let out :=
    reduceHeadInstances Children_toArray
      [mkRef (NElement (element "meta" (Some (KStr "cs"))
                          [("charSet", VString "utf-8")] NEmpty))]
      (mkOptions false) in
  let charSets :=
    filter (fun e => tagOf e = Some "meta" ∧ is_Some (attr "charSet" e)) out in
  ¬ (length charSets ≤ 1)%nat
  ∧ (key <$> charSets) = [Some (KStr "charSet"); Some (KStr ".$cs")].
Proof.
  cbv zeta. split.
  - vm_compute. lia.
  - vm_compute. reflexivity.
Qed.

(** ** Metas with a [name] *)


Lemma meta_loop_name_free (h : ReactElement) (v : PropValue)
  (st : UniqueState) :
  props h !! "name" = Some v → v ∉ categoriesOf "name" st →
  meta_loop h METATYPES st
  = meta_loop h ["httpEquiv"; "charSet"; "itemProp"]
      (mkUnique (keys st) (tags st) (metaTypes st)
         (<["name" := categoriesOf "name" st ∪ {[v]}]> (metaCategories st))).
Proof.
  unfold categoriesOf, METATYPES. intros Hn Hv. cbn [meta_loop].
  rewrite Hn. cbn [String.eqb Ascii.eqb Bool.eqb]. by case_decide.
Qed.


Lemma meta_loop_name_only (h : ReactElement) (v : PropValue)
  (st : UniqueState) :
  props h !! "name" = Some v → name_only h = true →
  v ∉ categoriesOf "name" st →
  fst (meta_loop h METATYPES st) = true.
Proof.
  intros Hn Ho Hv. apply bool_decide_eq_true in Ho as (Hh & Hc & Hi).
  rewrite (meta_loop_name_free h v) by done.
  cbn [meta_loop]. by rewrite Hh, Hc, Hi.
Qed.

Section Named.
Context (v : PropValue).

Let slot (st : UniqueState) : Prop := v ∈ categoriesOf "name" st.





End Named.



(** * Further properties of the reconciler and the registry *)

(** ** The registry as a set *)

Lemma Set_delete_add_fresh (x : nat) (s : list nat) :
  x ∉ s → Set_delete x (Set_add x s) = s.
Proof.
  intros Hx. unfold Set_add, Set_delete. rewrite decide_False by done.
  rewrite list.filter_app.
  rewrite (filter_cons_False _ x []) by (intros H; by apply H).
  rewrite filter_nil, app_nil_r.
  induction s as [|y s IH]; [done|].
  apply not_elem_of_cons in Hx as [Hxy Hx].
  rewrite filter_cons_True by congruence. by rewrite IH.
Qed.

(** X2: mounting an instance that is not registered and unmounting it
    again gives back the registry as it was, order included, and the
    recomputation at unmount stores the merged result of the instances
    registered before. *)
Theorem unmount_after_mount (toArray : ReactNode -> list ReactChild)
  (inAmpMode updateHead : bool) (r : nat) (m : HeadModule) :
  r ∉ headInstanceRefs m →
  unregister r (register r m) = m
  ∧ headState (effectUnmount toArray inAmpMode updateHead r (effectMount r m))
    = headState (emitUpdate toArray inAmpMode updateHead m).
Proof.
  intros Hr.
  assert (unregister r (register r m) = m) as Hm.
  { destruct m as [cur refs st ups]. unfold register, unregister.
    cbn [refCurrent headInstanceRefs headState updates] in *.
    by rewrite Set_delete_add_fresh. }
  split; [done|]. unfold effectUnmount, effectMount. by rewrite Hm.
Qed.

Lemma unmount_after_mount_witness :
  let m := mkHeadModule (<[1%nat := NString "a"]> ∅) [1%nat; 2%nat] None [] in
  unregister 3 (register 3 m) = m
  ∧ headState (effectUnmount Children_toArray false true 3 (effectMount 3 m))
    = headState (emitUpdate Children_toArray false true m).
Proof.
  cbv zeta. apply unmount_after_mount.
  intros H. repeat (apply elem_of_cons in H as [H|H]; [discriminate H|]).
  by apply elem_of_nil in H.
Defined.

(** X3: rendering the same instance again on the server replaces its
    contribution and does not register it a second time: after the two
    renders the registry, the stored children and the merged result are
    those of the second render alone. *)
Theorem Head_rerender_replaces (toArray : ReactNode -> list ReactChild)
  (inAmpMode updateHead inAmpMode' updateHead' : bool) (r : nat)
  (c1 c2 : ReactNode) (m : HeadModule) :
  let once := Head toArray true inAmpMode updateHead r c2 m in
  let twice :=
    Head toArray true inAmpMode updateHead r c2
      (Head toArray true inAmpMode' updateHead' r c1 m) in
  headInstanceRefs twice = headInstanceRefs once
  ∧ refCurrent twice = refCurrent once
  ∧ headState twice = headState once
  ∧ refCurrent twice !! r = Some c2.
Proof.
  cbv zeta. unfold Head, emitUpdate, register, spreadRefs.
  cbn [refCurrent headInstanceRefs headState updates].
  rewrite insert_insert_eq, Set_add_idem, lookup_insert_eq. done.
Qed.

Lemma spreadRefs_insert_fresh (r : nat) (c : ReactNode) (m : HeadModule) :
  r ∉ headInstanceRefs m →
  spreadRefs (mkHeadModule (<[r := c]> (refCurrent m)) (headInstanceRefs m)
                (headState m) (updates m))
  = spreadRefs m.
Proof.
  intros Hr. unfold spreadRefs. cbn [refCurrent headInstanceRefs].
  apply map_ext_in. intros x Hx. apply list_elem_of_In in Hx.
  rewrite lookup_insert_ne; [done|]. by intros ->.
Qed.

(** X4: a render on the client of an instance that is not registered
    only stores its children: the registry and [headState] stay as they
    are, and a recomputation triggered afterwards gives the same merged
    result as without that render. *)
Theorem client_render_unregistered (toArray : ReactNode -> list ReactChild)
  (a u a' u' : bool) (r : nat) (c : ReactNode) (m : HeadModule) :
  r ∉ headInstanceRefs m →
  let m' := Head toArray false a' u' r c m in
  headInstanceRefs m' = headInstanceRefs m
  ∧ headState m' = headState m
  ∧ headState (emitUpdate toArray a u m') = headState (emitUpdate toArray a u m).
Proof.
  intros Hr. cbv zeta. unfold Head, emitUpdate.
  cbn [refCurrent headInstanceRefs headState updates].
  by rewrite (spreadRefs_insert_fresh r c m Hr).
Qed.

Lemma client_render_unregistered_witness :
  let m := mkHeadModule (<[1%nat := NElement (element "title" None []
                                             (NString "t"))]> ∅)
             [1%nat] None [] in
  let m' := Head Children_toArray false false false 2
              (NElement (element "base" None [] NEmpty)) m in
  headInstanceRefs m' = headInstanceRefs m
  ∧ headState m' = headState m
  ∧ headState (emitUpdate Children_toArray false false m')
    = headState (emitUpdate Children_toArray false false m).
Proof.
  cbv zeta. apply client_render_unregistered.
  intros H. repeat (apply elem_of_cons in H as [H|H]; [discriminate H|]).
  by apply elem_of_nil in H.
Defined.

(** ** Where the elements of the merged output come from *)

Lemma filter_unique_app (st : UniqueState) (l1 l2 : list ReactElement) :
  filter_unique st (l1 ++ l2)
  = filter_unique st l1 ++ filter_unique (unique_run st l1) l2.
Proof.
  revert st. induction l1 as [|h l1 IH]; intros st; [done|].
  cbn [app filter_unique]. unfold unique_run. cbn [fold_left].
  destruct (unique_call st h) as [keep st'] eqn:E. cbn [snd].
  destruct keep; by rewrite IH.
Qed.

Lemma filter_unique_sublist (st : UniqueState) (l : list ReactElement) :
  filter_unique st l `sublist_of` l.
Proof.
  revert st. induction l as [|h l IH]; intros st; [constructor|].
  cbn [filter_unique]. destruct (unique_call st h) as [[] st'].
  - by apply sublist_skip.
  - by apply sublist_cons.
Qed.

Lemma sublist_reverse_2 {A : Type} (l k : list A) :
  l `sublist_of` k → reverse l `sublist_of` reverse k.
Proof.
  induction 1 as [|x l k _ IH|x l k _ IH].
  - constructor.
  - rewrite !reverse_cons. apply sublist_app; [done|]. by apply sublist_skip.
  - rewrite reverse_cons. by apply sublist_inserts_r.
Qed.

Lemma imap_clone_of (g : nat → nat) (l : list ReactElement) :
  Forall2 clone_of l (imap (fun i => withKeyAndClassName (g i)) l).
Proof.
  revert g. induction l as [|x l IH]; intros g; [constructor|].
  cbn [imap]. constructor; [by eexists|]. apply (IH (g ∘ S)).
Qed.

Lemma dedupedInstances_split (toArray : ReactNode -> list ReactChild)
  (refs : list RefObject) (options : WithInAmpMode) :
  dedupedInstances toArray refs options
  = reverse (filter_unique
               (unique_run unique (reverse (flattenInstances toArray refs)))
               (defaultHead "" (inAmpMode options)))
    ++ survivingContributions toArray refs.
Proof.
  unfold dedupedInstances, precedenceList, survivingContributions.
  by rewrite filter_unique_app, reverse_app.
Qed.

Lemma survivingContributions_sublist (toArray : ReactNode -> list ReactChild)
  (refs : list RefObject) :
  survivingContributions toArray refs `sublist_of` flattenInstances toArray refs.
Proof.
  unfold survivingContributions.
  rewrite <- (reverse_involutive (flattenInstances toArray refs)) at 2.
  apply sublist_reverse_2, filter_unique_sublist.
Qed.

(** X5: the merged output consists of clones of some of the defaults, in
    the reverse of their order in [defaultHead], followed by clones of
    some of the instances' elements in their order of registration;
    nothing else is in it, nothing is duplicated or reordered, and which
    of the instances' elements are kept depends neither on the defaults
    nor on amp mode. *)
Theorem defaults_then_contributions (toArray : ReactNode -> list ReactChild)
  (refs : list RefObject) (options : WithInAmpMode) :
  ∃ ds,
    Forall2 clone_of (ds ++ survivingContributions toArray refs)
      (reduceHeadInstances toArray refs options)
    ∧ ds `sublist_of` reverse (defaultHead "" (inAmpMode options))
    ∧ survivingContributions toArray refs
      `sublist_of` flattenInstances toArray refs.
Proof.
  eexists. split; [|split].
  - unfold reduceHeadInstances. rewrite dedupedInstances_split.
    apply (imap_clone_of id).
  - apply sublist_reverse_2, filter_unique_sublist.
  - apply survivingContributions_sublist.
Qed.

Lemma reduceHeadInstances_origin (toArray : ReactNode -> list ReactChild)
  (refs : list RefObject) (options : WithInAmpMode) (d : ReactElement) :
  d ∈ reduceHeadInstances toArray refs options →
  ∃ c, clone_of c d
       ∧ (c ∈ flattenInstances toArray refs
          ∨ c ∈ defaultHead "" (inAmpMode options)).
Proof.
  unfold reduceHeadInstances. intros Hd.
  apply elem_of_lookup_imap in Hd as (i & c & -> & Hc).
  exists c. split; [by exists i|].
  apply list_elem_of_lookup_2 in Hc. rewrite dedupedInstances_split in Hc.
  apply elem_of_app in Hc as [Hc|Hc].
  - right. apply (proj1 (elem_of_reverse _ _)) in Hc.
    eapply elem_of_sublist; [done|apply filter_unique_sublist].
  - left. eapply elem_of_sublist; [done|apply survivingContributions_sublist].
Qed.

(** X6: in amp mode the merged output contains a meta named "viewport"
    only if an instance supplies one: when no element of the instances
    has the name "viewport", no element of the output has it. *)
Theorem amp_no_viewport (toArray : ReactNode -> list ReactChild)
  (refs : list RefObject) (options : WithInAmpMode) :
  inAmpMode options = true →
  Forall (fun c => attr "name" c ≠ Some (VString "viewport"))
    (flattenInstances toArray refs) →
  Forall (fun d => attr "name" d ≠ Some (VString "viewport"))
    (reduceHeadInstances toArray refs options).
Proof.
  intros Hamp Hflat. apply list.Forall_forall. intros d Hd.
  apply reduceHeadInstances_origin in Hd as (c & [i ->] & Hc).
  unfold attr. rewrite props_withKeyAndClassName by done.
  destruct Hc as [Hc|Hc].
  - by apply (proj1 (list.Forall_forall _ _) Hflat).
  - rewrite Hamp in Hc. apply list_elem_of_singleton in Hc. by subst c.
Qed.

Lemma amp_no_viewport_witness :
  let refs := [mkRef (NArray [NElement (element "title" None [] (NString "t"));
                              NElement (element "meta" None
                                          [("name", VString "robots")]
                                          NEmpty)])] in
  Forall (fun d => attr "name" d ≠ Some (VString "viewport"))
    (reduceHeadInstances Children_toArray refs (mkOptions true)).
Proof.
  cbv zeta. apply amp_no_viewport; [reflexivity|].
  apply (bool_decide_unpack _). vm_compute. exact I.
Defined.

(** ** Elements the filter never drops *)

Lemma unique_call_uncategorized (st : UniqueState) (h : ReactElement) :
  uncategorized h → unique_call st h = (true, st).
Proof.
  intros (Hk & Ht & Hb & Hm). unfold unique_call. rewrite Hk.
  destruct (type h) as [|t] eqn:Hty; [done|].
  assert (String.eqb t "title" = false) as ->
    by (apply String.eqb_neq; congruence).
  assert (String.eqb t "base" = false) as ->
    by (apply String.eqb_neq; congruence).
  cbn [orb]. destruct (String.eqb t "meta") eqn:Hmeta; [|done].
  apply String.eqb_eq in Hmeta. subst t. specialize (Hm eq_refl).
  unfold METATYPES in *.
  repeat (apply Forall_cons_1 in Hm as [? Hm]).
  cbn [meta_loop]. by repeat match goal with H : _ !! _ = None |- _ =>
                              rewrite H; clear H end.
Qed.

Lemma filter_unique_uncategorized (st : UniqueState)
  (l : list ReactElement) :
  filter uncategorized (filter_unique st l) = filter uncategorized l.
Proof.
  revert st. induction l as [|h l IH]; intros st; [done|].
  cbn [filter_unique]. destruct (decide (uncategorized h)) as [Hu|Hu].
  - rewrite (unique_call_uncategorized st h Hu).
    rewrite !filter_cons_True by done. by rewrite IH.
  - destruct (unique_call st h) as [[] st'];
      rewrite ?filter_cons_False by done; apply IH.
Qed.

Lemma uncategorized_stable (i : nat) (c : ReactElement) :
  uncategorized (withKeyAndClassName i c) ↔ uncategorized c.
Proof.
  unfold uncategorized.
  rewrite auto_key_withKeyAndClassName, type_withKeyAndClassName.
  assert (Forall (fun m => props (withKeyAndClassName i c) !! m = None)
            METATYPES
          ↔ Forall (fun m => props c !! m = None) METATYPES) as ->; [|done].
  unfold METATYPES. rewrite !list.Forall_cons, !list.Forall_nil.
  by rewrite !props_withKeyAndClassName.
Qed.

Lemma defaultHead_categorized (className : string) (inAmpMode : bool) :
  filter uncategorized (defaultHead className inAmpMode) = [].
Proof.
  assert (∀ d, type d = Tag "meta" → is_Some (props d !! "charSet")
                                     ∨ is_Some (props d !! "name") →
               ¬ uncategorized d) as Hn.
  { intros d Hd Hp (_ & _ & _ & Hm). specialize (Hm Hd).
    unfold METATYPES in Hm. repeat (apply Forall_cons_1 in Hm as [? Hm]).
    destruct Hp as [[x Hx]|[x Hx]]; congruence. }
  destruct inAmpMode; cbn [defaultHead negb app];
    rewrite !filter_cons_False
      by (apply Hn; [done|(left; by eexists) || (right; by eexists)]);
    done.
Qed.

Lemma reduceHeadInstances_uncategorized
  (toArray : ReactNode -> list ReactChild)
  (refs : list RefObject) (options : WithInAmpMode) :
  Forall2 clone_of
    (filter uncategorized (flattenInstances toArray refs))
    (filter uncategorized (reduceHeadInstances toArray refs options)).
Proof.
  pose proof (reduceHeadInstances_filter uncategorized uncategorized_stable
                toArray refs options) as HF.
  rewrite filter_unique_uncategorized in HF.
  unfold precedenceList in HF.
  rewrite list.filter_app, defaultHead_categorized, app_nil_r in HF.
  by rewrite filter_reverse, reverse_involutive in HF.
Qed.

(** ** One meta per metatype value *)

Lemma meta_loop_category (h : ReactElement) (mts : list string)
  (st : UniqueState) (m : string) (v : PropValue) :
  m ∈ mts → m ≠ "charSet" → props h !! m = Some v →
  fst (meta_loop h mts st) = true →
  (v ∉ categoriesOf m st) ∧ v ∈ categoriesOf m (snd (meta_loop h mts st)).
Proof.
  intros Hin Hm Hv. revert st Hin.
  induction mts as [|m0 mts IH]; intros st Hin;
    [destruct (not_elem_of_nil _ Hin)|].
  apply elem_of_cons in Hin. cbn [meta_loop].
  destruct (props h !! m0) as [category|] eqn:Hp.
  - destruct (String.eqb m0 "charSet") eqn:Heq.
    + apply String.eqb_eq in Heq. subst m0.
      destruct Hin as [Hin|Hin]; [done|].
      case_decide; cbn [fst snd]; [done|]. intros Hk.
      by apply IH in Hk.
    + case_decide as Hc; cbn [fst snd]; [done|]. intros Hk.
      destruct (decide (m0 = m)) as [->|Hne].
      * assert (category = v) as -> by congruence. split; [done|].
        apply meta_loop_categories_mono. rewrite categoriesOf_insert.
        rewrite decide_True by done. apply elem_of_union. right.
        by apply elem_of_singleton.
      * destruct Hin as [Hin|Hin]; [congruence|].
        apply IH in Hk; [|done]. rewrite categoriesOf_insert in Hk.
        by rewrite decide_False in Hk by done.
  - destruct Hin as [Hin|Hin]; [congruence|]. intros Hk. by apply IH in Hk.
Qed.

Lemma plain_category_stable (m : string) (v : PropValue) (i : nat)
  (c : ReactElement) :
  m ≠ "className" →
  plain_category m v (withKeyAndClassName i c) ↔ plain_category m v c.
Proof.
  intros Hm. unfold plain_category.
  by rewrite plain_tag_stable, props_withKeyAndClassName.
Qed.

Lemma filter_unique_plain_category (m : string) (v : PropValue)
  (st : UniqueState) (l : list ReactElement) :
  m ∈ METATYPES → m ≠ "charSet" →
  (length (filter (plain_category m v) (filter_unique st l)) ≤ 1)%nat.
Proof.
  intros Hin Hm.
  apply (filter_unique_at_most_one (plain_category m v)
           (fun st => v ∈ categoriesOf m st)).
  - intros st' h [Hmeta Hv]. rewrite (unique_call_plain_meta h st' Hmeta).
    by apply meta_loop_category.
  - intros st' h. apply unique_call_categories_mono.
Qed.

(** X8: for each of the attributes [name], [httpEquiv] and [itemProp]
    and each value [v], at most one [meta] element that has the
    attribute with value [v] and whose key does not start with ['.$'] is
    left in the merged output, over all instances and the defaults. *)
Theorem meta_category_dedup (toArray : ReactNode -> list ReactChild)
  (refs : list RefObject) (options : WithInAmpMode) (v : PropValue) :
  Forall
    (fun m =>
       (length (filter (plain_category m v)
                  (reduceHeadInstances toArray refs options)) ≤ 1)%nat)
    ["name"; "httpEquiv"; "itemProp"].
Proof.
  assert (∀ m, m ∈ METATYPES → m ≠ "charSet" → m ≠ "className" →
               (length (filter (plain_category m v)
                          (reduceHeadInstances toArray refs options))
                ≤ 1)%nat) as Hone.
  { intros m Hin Hc Hcl.
    rewrite (reduceHeadInstances_filter_length (plain_category m v))
      by (intros i c; by apply plain_category_stable).
    by apply filter_unique_plain_category. }
  repeat (apply Forall_cons_2; [apply Hone; try done|]);
    [unfold METATYPES; apply list_elem_of_In; cbn; tauto..|].
  apply Forall_nil_2.
Qed.

(** ** Keys and class names of the merged output *)

Lemma string_of_uint_nonempty (d : Decimal.uint) :
  d ≠ Decimal.Nil → NilZero.string_of_uint d ≠ "".
Proof. by destruct d. Qed.

Lemma string_of_index_nonempty (i : nat) : string_of_index i ≠ "".
Proof.
  unfold string_of_index. apply string_of_uint_nonempty.
  rewrite <- (DecimalNat.Unsigned.of_to i) at 1.
  rewrite DecimalNat.Unsigned.to_of. apply DecimalFacts.unorm_nonnil.
Qed.

Lemma string_of_number_nonempty (n : SafeInteger) : string_of_number n ≠ "".
Proof.
  unfold string_of_number. destruct n as [[|p|p] Hp]; cbn; [done| |done].
  apply string_of_uint_nonempty, DecimalPos.Unsigned.to_uint_nonnil.
Qed.

Lemma withKeyAndClassName_key (i : nat) (c : ReactElement) :
  ∃ s, key (withKeyAndClassName i c) = Some (KStr s) ∧ s ≠ "".
Proof.
  unfold withKeyAndClassName, cloneElement. cbn [key].
  destruct (key c) as [[s|n]|]; cbn [truthy_key string_of_key].
  - destruct s as [|a s]; cbn [truthy_string];
      eexists; (split; [done|]); [apply string_of_index_nonempty|done].
  - destruct (negb (value n =? 0)%Z); eexists; (split; [done|]);
      [apply string_of_number_nonempty|apply string_of_index_nonempty].
  - eexists. split; [done|]. apply string_of_index_nonempty.
Qed.

Lemma withKeyAndClassName_className (i : nat) (c : ReactElement) :
  (type (withKeyAndClassName i c) = Tag "title"
   ∧ attr "className" (withKeyAndClassName i c) = Some VUndefined)
  ∨ ∃ s, attr "className" (withKeyAndClassName i c)
         = Some (VString (s ++ "next-head")).
Proof.
  unfold attr, withKeyAndClassName, cloneElement. cbn [props type].
  rewrite lookup_insert_eq.
  destruct (bool_decide (type c = Tag "title")
            && negb (truthy_prop (props c !! "className"))) eqn:Ht.
  - left. apply andb_true_iff in Ht as [Ht _].
    by apply bool_decide_eq_true in Ht.
  - right. by eexists.
Qed.

(** X9: every element of the merged output has a non-empty string as
    its key, and carries the class name [next-head] at the end of its
    [className], except that a [title] may have an undefined
    [className] instead. *)
Theorem output_keyed_and_marked (toArray : ReactNode -> list ReactChild)
  (refs : list RefObject) (options : WithInAmpMode) :
  Forall
    (fun e =>
       (∃ s, key e = Some (KStr s) ∧ s ≠ "")
       ∧ ((type e = Tag "title" ∧ attr "className" e = Some VUndefined)
          ∨ ∃ s, attr "className" e = Some (VString (s ++ "next-head"))))
    (reduceHeadInstances toArray refs options).
Proof.
  apply list.Forall_forall. intros e He. unfold reduceHeadInstances in He.
  apply elem_of_lookup_imap in He as (i & c & -> & _).
  split; [apply withKeyAndClassName_key|apply withKeyAndClassName_className].
Qed.

(** ** The defaults are kept unless an instance overrides them *)

Lemma meta_loop_metaTypes_frame (h : ReactElement) (mts : list string)
  (st : UniqueState) (x : string) :
  x ∈ metaTypes (snd (meta_loop h mts st)) →
  x ∈ metaTypes st ∨ (x = "charSet" ∧ is_Some (props h !! "charSet")).
Proof.
  revert st. induction mts as [|m mts IH]; intros st; [by left|].
  cbn [meta_loop]. destruct (props h !! m) as [category|] eqn:Hp; [|apply IH].
  destruct (String.eqb m "charSet") eqn:Heq.
  - apply String.eqb_eq in Heq. subst m.
    case_decide; cbn [snd]; [by left|]. intros Hx. apply IH in Hx.
    destruct Hx as [Hx|Hx]; [|by right]. cbn in Hx.
    apply elem_of_union in Hx as [Hx|Hx]; [by left|].
    apply elem_of_singleton in Hx. right. by split.
  - case_decide; cbn [snd]; [by left|]. intros Hx. by apply IH in Hx.
Qed.

Lemma unique_call_metaTypes_frame (h : ReactElement) (st : UniqueState)
  (x : string) :
  x ∈ metaTypes (snd (unique_call st h)) →
  x ∈ metaTypes st ∨ plain_charSet h.
Proof.
  unfold plain_charSet, plain_tag. unique_cases h; try by left.
  intros Hx. apply meta_loop_metaTypes_frame in Hx as [Hx|[_ Hx]]; [by left|].
  right. match goal with H : String.eqb _ "meta" = true |- _ =>
    apply String.eqb_eq in H; subst end. done.
Qed.

Lemma unique_run_metaTypes (l : list ReactElement) (st : UniqueState)
  (x : string) :
  x ∈ metaTypes (unique_run st l) → x ∈ metaTypes st ∨ Exists plain_charSet l.
Proof.
  revert st. induction l as [|h l IH]; intros st; [by left|].
  unfold unique_run. cbn [fold_left]. intros Hx. apply IH in Hx as [Hx|Hx].
  - apply unique_call_metaTypes_frame in Hx as [Hx|Hx]; [by left|].
    right. by apply Exists_cons_hd.
  - right. by apply Exists_cons_tl.
Qed.

Lemma unique_run_categories (l : list ReactElement) (st : UniqueState)
  (m : string) (v : PropValue) :
  v ∈ categoriesOf m (unique_run st l) →
  v ∈ categoriesOf m st ∨ Exists (plain_category m v) l.
Proof.
  revert st. induction l as [|h l IH]; intros st; [by left|].
  unfold unique_run. cbn [fold_left]. intros Hx. apply IH in Hx as [Hx|Hx].
  - destruct (decide (plain_category m v h)) as [Hp|Hp].
    + right. by apply Exists_cons_hd.
    + left. by apply (unique_call_categories_frame m v h).
  - right. by apply Exists_cons_tl.
Qed.

Lemma filter_unique_defaultHead (st : UniqueState) (className : string)
  (inAmpMode : bool) :
  "charSet" ∉ metaTypes st → VString "viewport" ∉ categoriesOf "name" st →
  filter_unique st (defaultHead className inAmpMode)
  = defaultHead className inAmpMode.
Proof.
  intros Hc Hv.
  assert (unique_call st (charSet_meta className)
          = (true, mkUnique (keys st) (tags st) (metaTypes st ∪ {["charSet"]})
                     (metaCategories st))) as Hcall.
  { rewrite unique_call_plain_meta by done.
    unfold METATYPES. cbn [meta_loop].
    change (props (charSet_meta className) !! "name") with (@None PropValue).
    change (props (charSet_meta className) !! "httpEquiv")
      with (@None PropValue).
    change (props (charSet_meta className) !! "itemProp")
      with (@None PropValue).
    change (props (charSet_meta className) !! "charSet")
      with (Some (VString "utf-8")).
    cbn [String.eqb Ascii.eqb Bool.eqb]. by rewrite decide_False. }
  destruct inAmpMode; cbn [defaultHead negb app filter_unique];
    rewrite Hcall; [done|].
  destruct (unique_call _ (viewport_meta className)) as [keep st'] eqn:E.
  assert (keep = true) as ->; [|done].
  change keep with (fst (keep, st')). rewrite <- E.
  rewrite unique_call_plain_meta by done.
  by apply (meta_loop_name_only _ (VString "viewport")).
Qed.

(** X10: when no instance supplies a [meta] without ['.$'] key that has
    a [charSet] attribute or the name "viewport", all defaults are kept:
    the merged output is the clones of the defaults in reverse order,
    followed by the clones of the instances' surviving elements. *)
Theorem defaults_kept (toArray : ReactNode -> list ReactChild)
  (refs : list RefObject) (options : WithInAmpMode) :
  Forall (fun c => ¬ plain_charSet c ∧ ¬ plain_named (VString "viewport") c)
    (flattenInstances toArray refs) →
  Forall2 clone_of
    (reverse (defaultHead "" (inAmpMode options))
     ++ survivingContributions toArray refs)
    (reduceHeadInstances toArray refs options).
Proof.
  intros Hflat. unfold reduceHeadInstances.
  rewrite dedupedInstances_split, filter_unique_defaultHead;
    [apply (imap_clone_of id)| |].
  - intros Hx. apply unique_run_metaTypes in Hx as [Hx|Hx];
      [by apply not_elem_of_empty in Hx|].
    apply list.Exists_exists in Hx as (c & Hc & Hp).
    apply (proj1 (elem_of_reverse _ _)) in Hc.
    by apply (proj1 (list.Forall_forall _ _) Hflat) in Hc as [? _].
  - intros Hx. apply unique_run_categories in Hx as [Hx|Hx];
      [by apply not_elem_of_empty in Hx|].
    apply list.Exists_exists in Hx as (c & Hc & Hp).
    apply (proj1 (elem_of_reverse _ _)) in Hc.
    by apply (proj1 (list.Forall_forall _ _) Hflat) in Hc as [_ ?].
Qed.

Lemma defaults_kept_witness :
  let refs := [mkRef (NArray [NElement (element "title" None [] (NString "t"));
                              NElement (element "meta" None
                                          [("name", VString "description");
                                           ("content", VString "d")]
                                          NEmpty)])] in
  Forall2 clone_of
    (reverse (defaultHead "" false)
     ++ survivingContributions Children_toArray refs)
    (reduceHeadInstances Children_toArray refs (mkOptions false)).
Proof.
  cbv zeta.
  apply (defaults_kept Children_toArray _ (mkOptions false)).
  apply (bool_decide_unpack _). vm_compute. exact I.
Defined.

(** ** A rendering pass on the server *)

Lemma spreadRefs_server_render (toArray : ReactNode -> list ReactChild)
  (a u : bool) (r : nat) (c : ReactNode) (m : HeadModule) :
  r ∉ headInstanceRefs m →
  let m' := Head toArray true a u r c m in
  headInstanceRefs m' = headInstanceRefs m ++ [r]
  ∧ spreadRefs m' = spreadRefs m ++ [mkRef c]
  ∧ headState m'
    = Some (reduceHeadInstances toArray (spreadRefs m ++ [mkRef c])
              (mkOptions a)).
Proof.
  intros Hr. cbv zeta.
  assert (spreadRefs (register r
            (mkHeadModule (<[r := c]> (refCurrent m)) (headInstanceRefs m)
               (headState m) (updates m)))
          = spreadRefs m ++ [mkRef c]) as Hs.
  { unfold register, Set_add.
    cbn [refCurrent headInstanceRefs headState updates].
    rewrite decide_False by done. unfold spreadRefs at 1.
    cbn [refCurrent headInstanceRefs]. rewrite map_app. cbn [map].
    rewrite lookup_insert_eq. cbn [default]. f_equal.
    apply (spreadRefs_insert_fresh r c m Hr). }
  unfold Head, emitUpdate. cbn [refCurrent headInstanceRefs headState updates].
  rewrite Hs. split; [|done].
  unfold register, Set_add. cbn [headInstanceRefs]. by rewrite decide_False.
Qed.

Lemma server_renders (toArray : ReactNode -> list ReactChild) (a u : bool)
  (pairs : list (nat * ReactNode)) :
  NoDup pairs.*1 →
  let m := fold_left (runOp toArray)
             ((fun p => OpRender true a u p.1 p.2) <$> pairs) initialModule in
  headInstanceRefs m = pairs.*1
  ∧ spreadRefs m = mkRef <$> pairs.*2
  ∧ (pairs ≠ [] →
     headState m
     = Some (reduceHeadInstances toArray (mkRef <$> pairs.*2) (mkOptions a))).
Proof.
  cbv zeta. induction pairs as [|[r c] pairs IH] using rev_ind; [done|].
  rewrite !fmap_app, fold_left_app. cbn [fmap list_fmap fold_left runOp fst snd].
  intros Hnd. apply list.NoDup_app in Hnd as (Hnd & Hfresh & _).
  destruct (IH Hnd) as (Hrefs & Hspread & _).
  assert (r ∉ pairs.*1) as Hr.
  { intros Hin. apply (Hfresh r Hin). constructor. }
  rewrite <- Hrefs in Hr.
  destruct (spreadRefs_server_render toArray a u r c _ Hr) as (H1 & H2 & H3).
  rewrite H1, H2, H3, Hrefs, Hspread. done.
Qed.

(** X11: a rendering pass on the server.  When instances with pairwise
    distinct refs render one after the other on the freshly loaded
    module, [rewind] afterwards returns the merged result of all their
    children, taken in the order in which they rendered, and leaves the
    registry empty. *)
Theorem server_pass_rewind (toArray : ReactNode -> list ReactChild)
  (a u : bool) (pairs : list (nat * ReactNode)) :
  NoDup pairs.*1 → pairs ≠ [] →
  let m := fold_left (runOp toArray)
             ((fun p => OpRender true a u p.1 p.2) <$> pairs) initialModule in
  fst (rewind m)
  = Some (reduceHeadInstances toArray (mkRef <$> pairs.*2) (mkOptions a))
  ∧ headInstanceRefs (snd (rewind m)) = []
  ∧ headState (snd (rewind m)) = None.
Proof.
  intros Hnd Hne. cbv zeta.
  destruct (server_renders toArray a u pairs Hnd) as (_ & _ & Hst).
  unfold rewind. cbn [fst snd headInstanceRefs headState]. by rewrite Hst.
Qed.

Lemma server_pass_rewind_witness :
  let pairs :=
    [(1%nat, NElement (element "title" None [] (NString "a")));
     (2%nat, NElement (element "title" None [] (NString "b")))] in
  let m := fold_left (runOp Children_toArray)
             ((fun p => OpRender true false false p.1 p.2) <$> pairs)
             initialModule in
  fst (rewind m)
  = Some (reduceHeadInstances Children_toArray (mkRef <$> pairs.*2)
            (mkOptions false))
  ∧ headInstanceRefs (snd (rewind m)) = []
  ∧ headState (snd (rewind m)) = None.
Proof.
  cbv zeta. apply server_pass_rewind; [|discriminate].
  apply (bool_decide_unpack _). vm_compute. exact I.
Defined.

(** ** The TypeError of line 88 *)

Lemma meta_loop_checked_shadowed (h : ReactElement) (mts : list string)
  (st : UniqueState) :
  is_Some (props h !! "hasOwnProperty") → mts ≠ [] →
  meta_loop_checked h mts st = None.
Proof.
  intros Hs Hne. destruct mts as [|m mts]; [done|].
  cbn [meta_loop_checked]. by rewrite decide_True.
Qed.

Lemma meta_loop_checked_inherited (h : ReactElement) (mts : list string)
  (st : UniqueState) :
  ¬ is_Some (props h !! "hasOwnProperty") →
  meta_loop_checked h mts st = Some (meta_loop h mts st).
Proof.
  intros Hs. revert st. induction mts as [|m mts IH]; intros st; [done|].
  cbn [meta_loop_checked meta_loop]. rewrite decide_False by done.
  destruct (props h !! m) as [category|]; [|apply IH].
  destruct (String.eqb m "charSet"); case_decide; try done; apply IH.
Qed.

Lemma unique_call_checked_spec (st : UniqueState) (h : ReactElement) :
  unique_call_checked st h
  = if decide (throwing h) then None else Some (unique_call st h).
Proof.
  destruct (decide (throwing h)) as [Hthrow|Hthrow].
  - destruct Hthrow as [[Hk Ht] Hs]. unfold unique_call_checked.
    rewrite Hk, Ht. cbn [String.eqb Ascii.eqb Bool.eqb orb].
    by apply meta_loop_checked_shadowed.
  - unfold unique_call_checked, unique_call.
    destruct (auto_key h) as [k|] eqn:Hk; [by case_decide|].
    destruct (type h) as [|t] eqn:Ht; [done|].
    destruct (String.eqb t "title" || String.eqb t "base");
      [by case_decide|].
    destruct (String.eqb t "meta") eqn:Hm; [|done].
    apply String.eqb_eq in Hm. subst t.
    apply meta_loop_checked_inherited. intros Hs. by apply Hthrow.
Qed.

Lemma filter_unique_checked_spec (st : UniqueState) (l : list ReactElement) :
  filter_unique_checked st l
  = if decide (Exists throwing l) then None else Some (filter_unique st l).
Proof.
  revert st. induction l as [|h l IH]; intros st.
  { cbn. rewrite decide_False; [done|]. by intros ?%Exists_nil. }
  cbn [filter_unique_checked filter_unique]. rewrite unique_call_checked_spec.
  destruct (decide (throwing h)) as [Hh|Hh].
  { rewrite decide_True; [done|]. by apply Exists_cons_hd. }
  destruct (unique_call st h) as [keep st']. rewrite IH.
  destruct (decide (Exists throwing l)) as [Hl|Hl].
  - rewrite decide_True; [done|]. by apply Exists_cons_tl.
  - rewrite decide_False; [done|].
    intros [?|?]%Exists_cons; done.
Qed.

Lemma defaultHead_not_throwing (className : string) (inAmpMode : bool) :
  ¬ Exists throwing (defaultHead className inAmpMode).
Proof.
  assert (∀ d, props d !! "hasOwnProperty" = None → ¬ throwing d) as Hn.
  { intros d Hd [_ [x Hx]]. congruence. }
  intros He. apply list.Exists_exists in He as (d & Hd & Ht).
  revert Ht. apply Hn.
  destruct inAmpMode; cbn [defaultHead negb app] in Hd;
    repeat (apply elem_of_cons in Hd as [->|Hd]; [done|]);
    by apply elem_of_nil in Hd.
Qed.

Lemma precedenceList_throwing (toArray : ReactNode -> list ReactChild)
  (refs : list RefObject) (options : WithInAmpMode) :
  Exists throwing (precedenceList toArray refs options)
  ↔ Exists throwing (flattenInstances toArray refs).
Proof.
  unfold precedenceList. rewrite Exists_app.
  pose proof (defaultHead_not_throwing "" (inAmpMode options)) as Hd.
  rewrite !list.Exists_exists. setoid_rewrite elem_of_reverse.
  rewrite list.Exists_exists in Hd. tauto.
Qed.

Lemma reduceHeadInstances_checked_spec
  (toArray : ReactNode -> list ReactChild) (refs : list RefObject)
  (options : WithInAmpMode) :
  reduceHeadInstances_checked toArray refs options
  = if decide (Exists throwing (flattenInstances toArray refs)) then None
    else Some (reduceHeadInstances toArray refs options).
Proof.
  unfold reduceHeadInstances_checked. rewrite filter_unique_checked_spec.
  destruct (decide (Exists throwing (precedenceList toArray refs options)))
    as [He|He]; rewrite precedenceList_throwing in He.
  - by rewrite decide_True.
  - by rewrite decide_False.
Qed.

(** X12: [reduceHeadInstances] raises the TypeError of line 88 exactly
    when some element supplied by the instances is a [meta] without
    ['.$'] key whose props have an own property [hasOwnProperty]; in
    every other case it returns, and what it returns is
    [reduceHeadInstances].  [emitUpdate] raises in the same cases,
    leaving the module state as it was, and otherwise stores and
    publishes that result. *)
Theorem reduceHeadInstances_raises_or_returns
  (toArray : ReactNode -> list ReactChild) (refs : list RefObject)
  (options : WithInAmpMode) (updateHead : bool) (m : HeadModule) :
  reduceHeadInstances_checked toArray refs options
  = (if decide (Exists throwing (flattenInstances toArray refs)) then None
     else Some (reduceHeadInstances toArray refs options))
  ∧ emitUpdate_checked toArray (inAmpMode options) updateHead m
    = (if decide (Exists throwing (flattenInstances toArray (spreadRefs m)))
       then None
       else Some (emitUpdate toArray (inAmpMode options) updateHead m))
  ∧ reduceHeadInstances_checked Children_toArray
      [mkRef (NElement (element "meta" None
                          [("hasOwnProperty", VString "x")] NEmpty))]
      (mkOptions false)
    = None.
Proof.
  split; [apply reduceHeadInstances_checked_spec|]. split; [|by vm_compute].
  unfold emitUpdate_checked, emitUpdate.
  rewrite reduceHeadInstances_checked_spec. by case_decide.
Qed.

(** X7: whenever [reduceHeadInstances] returns, the elements for which
    the filter has no rule (no ['.$'] key, not a [title] or [base], and
    for a [meta] none of [name], [httpEquiv], [charSet], [itemProp]),
    such as links, scripts and styles, have not been deduplicated: the
    merged output contains a clone of every one of them, in their order
    of registration. *)
Theorem uncategorized_all_survive (toArray : ReactNode -> list ReactChild)
  (refs : list RefObject) (options : WithInAmpMode)
  (out : list ReactElement) :
  reduceHeadInstances_checked toArray refs options = Some out →
  Forall2 clone_of
    (filter uncategorized (flattenInstances toArray refs))
    (filter uncategorized out).
Proof.
  rewrite reduceHeadInstances_checked_spec. case_decide; [done|].
  intros [= <-]. apply reduceHeadInstances_uncategorized.
Qed.

Lemma uncategorized_all_survive_witness :
  let link rel := element "link" None [("rel", VString rel)] NEmpty in
  let refs := [mkRef (NArray [NElement (link "preload");
                              NElement (element "title" None []
                                          (NString "t"))]);
               mkRef (NElement (link "preload"))] in
  ∃ out,
    reduceHeadInstances_checked Children_toArray refs (mkOptions false)
    = Some out
    ∧ Forall2 clone_of
        (filter uncategorized (flattenInstances Children_toArray refs))
        (filter uncategorized out).
Proof.
  cbv zeta. eexists. split; [by vm_compute|].
  apply (uncategorized_all_survive Children_toArray _ (mkOptions false)).
  by vm_compute.
Defined.

(** ** A rejected meta still leaves its records *)

Lemma meta_loop_other_recorded (h : ReactElement) (mts : list string)
  (st : UniqueState) (m : string) (v : PropValue) :
  m ∉ mts → recorded m v (snd (meta_loop h mts st)) ↔ recorded m v st.
Proof.
  revert st. induction mts as [|m0 mts IH]; intros st Hm; [done|].
  apply not_elem_of_cons in Hm as [Hne Hm].
  cbn [meta_loop]. destruct (props h !! m0) as [category|]; [|by apply IH].
  destruct (String.eqb m0 "charSet") eqn:Heq; case_decide; cbn [snd];
    try done; rewrite IH by done; unfold recorded.
  - apply String.eqb_eq in Heq. subst m0.
    apply String.eqb_neq in Hne. rewrite Hne. done.
  - destruct (String.eqb m "charSet"); [done|].
    rewrite categoriesOf_insert. by rewrite decide_False.
Qed.

Lemma meta_loop_rejected (h : ReactElement) (mts : list string)
  (st : UniqueState) :
  fst (meta_loop h mts st) = false →
  ∃ pre m post v,
    mts = pre ++ m :: post
    ∧ props h !! m = Some v
    ∧ fst (meta_loop h pre st) = true
    ∧ recorded m v (snd (meta_loop h pre st))
    ∧ snd (meta_loop h mts st) = snd (meta_loop h pre st).
Proof.
  revert st. induction mts as [|m0 mts IH]; intros st; [done|].
  cbn [meta_loop]. destruct (props h !! m0) as [category|] eqn:Hp.
  - destruct (String.eqb m0 "charSet") eqn:Heq.
    + case_decide as Hc; cbn [fst snd].
      * intros _. exists [], m0, mts, category. split_and!; try done.
        unfold recorded. rewrite Heq. by apply String.eqb_eq in Heq as ->.
      * intros Hk. apply IH in Hk as (pre & m & post & v & -> & ? & ? & ? & ?).
        exists (m0 :: pre), m, post, v. cbn [meta_loop]. rewrite Hp, Heq.
        by rewrite decide_False.
    + case_decide as Hc; cbn [fst snd].
      * intros _. exists [], m0, mts, category. split_and!; try done.
        unfold recorded. by rewrite Heq.
      * intros Hk. apply IH in Hk as (pre & m & post & v & -> & ? & ? & ? & ?).
        exists (m0 :: pre), m, post, v. cbn [meta_loop]. rewrite Hp, Heq.
        by rewrite decide_False.
  - intros Hk. apply IH in Hk as (pre & m & post & v & -> & ? & ? & ? & ?).
    exists (m0 :: pre), m, post, v. cbn [meta_loop]. by rewrite Hp.
Qed.

Lemma meta_loop_passed_recorded (h : ReactElement) (mts : list string)
  (st : UniqueState) (m : string) (v : PropValue) :
  m ∈ mts → props h !! m = Some v → fst (meta_loop h mts st) = true →
  ¬ recorded m v st ∧ recorded m v (snd (meta_loop h mts st)).
Proof.
  intros Hin Hv Hk. unfold recorded.
  destruct (String.eqb m "charSet") eqn:Heq.
  - apply String.eqb_eq in Heq. subst m. by apply meta_loop_charSet.
  - apply String.eqb_neq in Heq. by apply meta_loop_category.
Qed.

Lemma METATYPES_NoDup : NoDup METATYPES.
Proof. apply (bool_decide_unpack _). vm_compute. exact I. Qed.

Lemma unique_call_recorded_mono (st : UniqueState) (h : ReactElement)
  (m : string) (v : PropValue) :
  recorded m v st → recorded m v (snd (unique_call st h)).
Proof.
  unfold recorded. destruct (String.eqb m "charSet").
  - apply unique_call_metaTypes_mono.
  - apply unique_call_categories_mono.
Qed.

(** C10: whenever the filter callback rejects a meta (without auto key)
    it does so at the check of one of its attributes, whose value had
    been recorded before; every attribute of the element that comes
    earlier in [METATYPES] was new and has by then been recorded, and
    stays recorded in the collections the callback leaves behind.  A
    meta that has a recorded attribute is never kept, and records are
    never removed, so a meta met later that shares such an attribute is
    dropped although the element that recorded it was dropped itself.
    In runs: with instances supplying robots "noindex", then robots with
    a [charSet], then a [charSet] meta, no robots meta is left in the
    merged output, although the first one is left when the second
    instance is absent; the same happens with [httpEquiv] in place of
    [name]. *)
Theorem meta_recorded_before_rejected :
  (∀ (st st' : UniqueState) (h : ReactElement),
      plain_tag "meta" h →
      unique_call_checked st h = Some (false, st') →
      ∃ pre metatype post v,
        METATYPES = pre ++ metatype :: post
        ∧ props h !! metatype = Some v
        ∧ recorded metatype v st
        ∧ Forall (fun m => ∀ w, props h !! m = Some w →
                                ¬ recorded m w st ∧ recorded m w st') pre)
  ∧ (∀ (st : UniqueState) (h : ReactElement) (m : string) (v : PropValue),
       plain_tag "meta" h → m ∈ METATYPES → props h !! m = Some v →
       recorded m v st →
       ∀ st', unique_call_checked st h ≠ Some (true, st'))
  ∧ (∀ (st st' : UniqueState) (h : ReactElement) (keep : bool)
       (m : string) (v : PropValue),
       unique_call_checked st h = Some (keep, st') →
       recorded m v st → recorded m v st')
  ∧ let meta attrs := mkRef (NElement (element "meta" None attrs NEmpty)) in
    let contents (a v : string) (out : option (list ReactElement)) :=
      (fun l : list ReactElement =>
         attr "content"
           <$> filter (fun e => attr a e = Some (VString v)) l)
        <$> out in
    let third := meta [("charSet", VString "utf-8")] in
    contents "name" "robots"
      (reduceHeadInstances_checked Children_toArray
         [meta [("name", VString "robots"); ("content", VString "noindex")];
          meta [("name", VString "robots"); ("charSet", VString "latin1")];
          third]
         (mkOptions false)) = Some []
    ∧ contents "name" "robots"
        (reduceHeadInstances_checked Children_toArray
           [meta [("name", VString "robots"); ("content", VString "noindex")];
            third]
           (mkOptions false)) = Some [Some (VString "noindex")]
    ∧ contents "httpEquiv" "refresh"
        (reduceHeadInstances_checked Children_toArray
           [meta [("httpEquiv", VString "refresh"); ("content", VString "5")];
            meta [("httpEquiv", VString "refresh");
                  ("charSet", VString "latin1")];
            third]
           (mkOptions false)) = Some []
    ∧ contents "httpEquiv" "refresh"
        (reduceHeadInstances_checked Children_toArray
           [meta [("httpEquiv", VString "refresh"); ("content", VString "5")];
            third]
           (mkOptions false)) = Some [Some (VString "5")].
Proof.
  split_and!; [| | |cbv zeta; split_and!; by vm_compute].
  - intros st st' h Hm Hcall. rewrite unique_call_checked_spec in Hcall.
    case_decide; [done|]. injection Hcall as Hcall.
    rewrite (unique_call_plain_meta h st Hm) in Hcall.
    destruct (meta_loop_rejected h METATYPES st)
      as (pre & m & post & v & Hsplit & Hv & Hpre & Hrec & Hst);
      [by rewrite Hcall|].
    rewrite Hcall in Hst. cbn [snd] in Hst. subst st'.
    exists pre, m, post, v. split_and!; try done.
    + pose proof METATYPES_NoDup as Hnd. rewrite Hsplit in Hnd.
      apply list.NoDup_app in Hnd as (_ & Hnd & _).
      apply (meta_loop_other_recorded h pre st m v); [|done].
      intros Hin. apply (Hnd m Hin). constructor.
    + apply list.Forall_forall. intros m' Hin w Hw.
      by apply meta_loop_passed_recorded.
  - intros st h m v Hm Hin Hv Hrec st' Hcall.
    rewrite unique_call_checked_spec in Hcall.
    case_decide; [done|]. injection Hcall as Hcall.
    rewrite (unique_call_plain_meta h st Hm) in Hcall.
    destruct (meta_loop_passed_recorded h METATYPES st m v) as [Hn _];
      try done. by rewrite Hcall.
  - intros st st' h keep m v Hcall Hrec.
    rewrite unique_call_checked_spec in Hcall.
    case_decide; [done|]. injection Hcall as Hcall.
    replace st' with (snd (unique_call st h)) by by rewrite Hcall.
    by apply unique_call_recorded_mono.
Qed.

(** The first part of C10 at the state the filter is in after it has
    kept a [charSet] meta, for a meta with a new [name], a new
    [httpEquiv] and a [charSet]: it is rejected at [charSet], with both
    other attributes recorded. *)
Lemma meta_recorded_before_rejected_witness :
  let st := snd (unique_call unique
                   (element "meta" None [("charSet", VString "utf-8")]
                      NEmpty)) in
  let h := element "meta" (Some (KStr ".1"))
             [("name", VString "robots"); ("httpEquiv", VString "refresh");
              ("charSet", VString "latin1")]
             NEmpty in
  ∃ pre metatype post v,
    METATYPES = pre ++ metatype :: post
    ∧ props h !! metatype = Some v
    ∧ recorded metatype v st
    ∧ Forall (fun m => ∀ w, props h !! m = Some w →
                            ¬ recorded m w st
                            ∧ recorded m w (snd (unique_call st h))) pre.
Proof.
  cbv zeta.
  apply (proj1 meta_recorded_before_rejected).
  - split; reflexivity.
  - by vm_compute.
Defined.
